(** * Foreign-key cross-document checks (extensions/fk_check.py)

    A shallow embedding of the [AbstractRefKey] validator and of its
    [ForeignKey] subclass: declaration bootstrapping, per-document
    gathering, the corpus-wide second pass, [forget] and [cleanup].

    Conventions of the embedding.
    - Python dicts keep insertion order and are iterated in the code, so
      they are association lists with unique keys ([dict]).
    - [FKLoc.values] is a Python [set] that the second pass iterates to
      build the error list; it is a duplicate-free list whose order stands
      for the set's iteration order.
    - The sets of document names returned by the second pass are only
      returned, never iterated: they are [gset string].
    - JSON numbers are integers (floating point is outside the embedding);
      JSON objects are taken in key-sorted form, as [json.dumps] with
      [sort_keys=True] renders them for hashing.
    - Collaborators that live outside fk_check.py (uriagents, IndexKey,
      the type of indexed values, Python's [str]) are section variables. *)

From Stdlib Require Import Ascii.
From stdpp Require Import base strings list gmap pretty.

Open Scope string_scope.
Open Scope list_scope.

#[local] Set Warnings "-register-all,-clear-no-such-hyp".


(** ** JSON values *)

Inductive JSON : Type :=
| JNull
| JBool (b : bool)
| JInt (n : Z)
| JStr (s : string)
| JArr (items : list JSON)
| JObj (fields : list (string * JSON)).

Fixpoint JSON_eqb (a b : JSON) {struct a} : bool :=
  match a, b with
  | JNull, JNull => true
  | JBool x, JBool y => Bool.eqb x y
  | JInt x, JInt y => Z.eqb x y
  | JStr x, JStr y => String.eqb x y
  | JArr xs, JArr ys =>
      (fix go (l1 l2 : list JSON) {struct l1} : bool :=
         match l1, l2 with
         | [], [] => true
         | x :: l1', y :: l2' => JSON_eqb x y && go l1' l2'
         | _, _ => false
         end) xs ys
  | JObj xs, JObj ys =>
      (fix go (l1 l2 : list (string * JSON)) {struct l1} : bool :=
         match l1, l2 with
         | [], [] => true
         | (k1, x) :: l1', (k2, y) :: l2' =>
             String.eqb k1 k2 && JSON_eqb x y && go l1' l2'
         | _, _ => false
         end) xs ys
  | _, _ => false
  end.

Lemma JSON_eqb_eq : ∀ a b, JSON_eqb a b = true → a = b.
Proof.
  fix IH 1.
  intros [| x | x | x | xs | xs] [| y | y | y | ys | ys]; simpl;
    try discriminate; try reflexivity.
  - intros H. apply Bool.eqb_prop in H. by subst.
  - intros H. apply Z.eqb_eq in H. by subst.
  - intros H. apply String.eqb_eq in H. by subst.
  - intros H. f_equal. revert ys H.
    induction xs as [| x xs IHxs]; intros [| y ys]; try discriminate; auto.
    intros H. apply andb_true_iff in H as [H1 H2].
    f_equal; [apply IH; exact H1 | apply IHxs; exact H2].
  - intros H. f_equal. revert ys H.
    induction xs as [| [k1 x] xs IHxs]; intros [| [k2 y] ys];
      try discriminate; auto.
    intros H. apply andb_true_iff in H as [H12 H3].
    apply andb_true_iff in H12 as [H1 H2].
    apply String.eqb_eq in H1. subst k2.
    f_equal; [f_equal; apply IH; exact H2 | apply IHxs; exact H3].
Qed.

Lemma JSON_eqb_refl : ∀ a, JSON_eqb a a = true.
Proof.
  fix IH 1.
  intros [| x | x | x | xs | xs]; simpl; try reflexivity.
  - by destruct x.
  - apply Z.eqb_refl.
  - apply String.eqb_refl.
  - induction xs as [| x xs IHxs]; [done |].
    by rewrite IH, IHxs.
  - induction xs as [| [k x] xs IHxs]; [done |].
    by rewrite String.eqb_refl, IH, IHxs.
Qed.

#[global] Instance JSON_eq_dec : EqDecision JSON.
Proof.
  intros a b. destruct (JSON_eqb a b) eqn:E.
  - left. by apply JSON_eqb_eq.
  - right. intros ->. rewrite JSON_eqb_refl in E. discriminate.
Defined.

(** ** Python containers *)

(** An insertion-ordered dict with string keys. *)
Abbreviation dict V := (list (string * V)).

Section Dict.
Context {V : Type}.

(** [d.get(k)] *)
Fixpoint dict_get (k : string) (d : dict V) : option V :=
  match d with
  | [] => None
  | (k', v) :: r => if decide (k = k') then Some v else dict_get k r
  end.

(** [d[k] = v]: an existing key keeps its position, a new key goes last. *)
Fixpoint dict_set (k : string) (v : V) (d : dict V) : dict V :=
  match d with
  | [] => [(k, v)]
  | (k', v') :: r =>
      if decide (k = k') then (k, v) :: r else (k', v') :: dict_set k v r
  end.

(** [d.setdefault(k, v)], as the new dict and the value now under [k]. *)
Definition dict_setdefault (k : string) (v : V) (d : dict V) : dict V * V :=
  match dict_get k d with
  | Some v' => (d, v')
  | None => (dict_set k v d, v)
  end.

Definition dict_keys (d : dict V) : list string := d.*1.
Definition dict_values (d : dict V) : list V := d.*2.
End Dict.

(** [enumerate(l)] *)
Definition enumerate {A} (l : list A) : list (nat * A) := imap pair l.

(** ** Data model of fk_check.py *)

Record FKVals := mkFKVals {
  FKVals_values : list (list JSON);
  FKVals_where : string
}.

#[global] Instance FKVals_eq_dec : EqDecision FKVals.
Proof. solve_decision. Defined.

(** [s.add(x)] on a set kept as a duplicate-free list. *)
Definition set_add (x : FKVals) (s : list FKVals) : list FKVals :=
  if decide (x ∈ s) then s else s ++ [x].

Record FKLoc := mkFKLoc {
  FKLoc_schemaURI : string;
  FKLoc_refSchemaURI : string;
  FKLoc_path : string;
  FKLoc_values : list FKVals
}.

Record FKDef := mkFKDef {
  FKDef_fkLoc : FKLoc;
  FKDef_members : JSON;
  FKDef_refers_to : option string
}.

(** [fkDef.fkLoc.values] replaced by [vs]; every other field kept. *)
Definition FKDef_with_values (vs : list FKVals) (fkDef : FKDef) : FKDef :=
  let fkLoc := FKDef_fkLoc fkDef in
  mkFKDef
    (mkFKLoc (FKLoc_schemaURI fkLoc) (FKLoc_refSchemaURI fkLoc)
             (FKLoc_path fkLoc) vs)
    (FKDef_members fkDef) (FKDef_refers_to fkDef).

(** One item of the [foreign_keys] array of a schema ([p_FK_decl]); the
    trigger schema types [schema_id] and [refers_to] as strings. *)
Record FKDecl := mkFKDecl {
  decl_schema_id : option string;
  decl_members : option JSON;
  decl_refers_to : option string
}.

(** A [FeatureLoc]: a schema node carrying the trigger attribute, with the
    identity of the node ([id(loc.context)]), the array found under the
    attribute ([loc.context[triggerAttribute]]) and the path of the node. *)
Record FeatureLoc := mkFeatureLoc {
  loc_context_id : N;
  loc_fk_defs : list FKDecl;
  loc_path : string
}.

Record BootstrapErrorDict := mkBootstrapError {
  be_reason : string;
  be_description : string
}.

Record SecondPassErrorDict := mkSecondPassError {
  reason : string;
  description : string;
  file : string;
  path : string
}.

Record ValidationError := mkValidationError { message : string }.

(** What a subclass of [AbstractRefKey] has to provide. *)
Class RefKeyClass := {
  triggerAttribute : string;
  _errorReason : string;
  _danglingErrorReason : string
}.

(** [class ForeignKey(AbstractRefKey)] *)
Definition ForeignKey : RefKeyClass := {|
  triggerAttribute := "foreign_keys";
  _errorReason := "stale_fk";
  _danglingErrorReason := "dangling_fk"
|}.

(** The instance attributes of an [AbstractRefKey]; [joinClass] is held by
    its [__name__], the only use the code makes of it. *)
Record AbstractRefKey := mkRefKey {
  schemaURI : string;
  jsonSchemaSource : string;
  currentJSONFile : string;
  joinClass : string;
  FKWorld : dict (dict FKDef)
}.

Definition with_FKWorld (w : dict (dict FKDef)) (self : AbstractRefKey)
  : AbstractRefKey :=
  mkRefKey (schemaURI self) (jsonSchemaSource self) (currentJSONFile self)
           (joinClass self) w.

(** [ForeignKey.__init__]: the join class is [PrimaryKey]. *)
Definition ForeignKey_init (schemaURI jsonSchemaSource : string)
  : AbstractRefKey :=
  mkRefKey schemaURI jsonSchemaSource "" "PrimaryKey" [].

(** Exceptions the modelled code can raise. *)
Inductive PyExc := KeyError (key : string).

Inductive Result (A : Type) :=
| Ok (a : A)
| Raise (e : PyExc).
Arguments Ok {A} a.
Arguments Raise {A} e.

(** ** The operations of [AbstractRefKey] *)

Section AbstractRefKey.
(** uriagents.isabsuri and uriagents.urijoin *)
Variable isabsuri : string → bool.
Variable urijoin : string → string → string.
(** IndexKey.GetKeyValues: one value sequence per member. *)
Variable GetKeyValues : JSON → list JSON → list (list JSON).

Context {cls : RefKeyClass}.

(** *** bootstrap *)

(** The body of the inner loop of [bootstrap], for the declaration at
    position [fk_loc_i] of the array of [loc]. *)
Definition bootstrap_decl (self : AbstractRefKey)
    (refSchemaCache : gset string) (loc : FeatureLoc)
    (st : list BootstrapErrorDict * dict (dict FKDef))
    (it : nat * FKDecl) : list BootstrapErrorDict * dict (dict FKDef) :=
  let '(errors, world) := st in
  let '(fk_loc_i, p_FK_decl) := it in
  let fk_defs_gid := pretty (loc_context_id loc) in
  let fk_loc_id := fk_defs_gid +:+ "_" +:+ pretty fk_loc_i in
  let ref_schema_id := decl_schema_id p_FK_decl in
  let abs_ref_schema_id :=
    match ref_schema_id with
    | None => schemaURI self
    | Some r =>
        if isabsuri (schemaURI self) then urijoin (schemaURI self) r else r
    end in
  let errors :=
    if decide (abs_ref_schema_id ∈ refSchemaCache) then errors
    else errors ++
      [ mkBootstrapError "fk_no_schema"
          ("No schema with " +:+ abs_ref_schema_id +:+ " id, required by "
           +:+ jsonSchemaSource self +:+ " (" +:+ schemaURI self +:+ ")") ] in
  let fk_members := default (JArr []) (decl_members p_FK_decl) in
  let fk_pk_name := decl_refers_to p_FK_decl in
  let fkLoc :=
    mkFKLoc (schemaURI self) abs_ref_schema_id
            (loc_path loc +:+ "/" +:+ pretty fk_loc_i) [] in
  let fk_id := abs_ref_schema_id in
  let '(world, fkDefH) := dict_setdefault fk_id [] world in
  let fkDefH := dict_set fk_loc_id (mkFKDef fkLoc fk_members fk_pk_name) fkDefH in
  (errors, dict_set fk_id fkDefH world).

Definition bootstrap_loc (self : AbstractRefKey)
    (refSchemaCache : gset string)
    (st : list BootstrapErrorDict * dict (dict FKDef)) (loc : FeatureLoc)
  : list BootstrapErrorDict * dict (dict FKDef) :=
  foldl (bootstrap_decl self refSchemaCache loc) st
        (enumerate (loc_fk_defs loc)).

(** [refSchemaTuple] is [(id2ElemId, keyRefs, refSchemaCache)]; the code
    ignores [id2ElemId] and only tests membership in [refSchemaCache]. *)
Definition bootstrap (self : AbstractRefKey)
    (refSchemaTuple : dict string * dict (list FeatureLoc) * gset string)
  : Result (list BootstrapErrorDict * AbstractRefKey) :=
  let '(id2ElemId, keyRefs, refSchemaCache) := refSchemaTuple in
  match dict_get triggerAttribute keyRefs with
  | None => Raise (KeyError triggerAttribute)
  | Some keyList =>
      let '(errors, world) :=
        foldl (bootstrap_loc self refSchemaCache) ([], FKWorld self) keyList in
      Ok (errors, with_FKWorld world self)
  end.

(** *** validate (gathering) *)

(** The body of the loop of [validate]; [schema_id] is [id(schema)]. *)
Definition validate_decl (self : AbstractRefKey) (schema_id : N)
    (value : JSON) (world : dict (dict FKDef)) (it : nat * FKDecl)
  : dict (dict FKDef) :=
  let '(fk_loc_i, p_FK_decl) := it in
  let fk_defs_gid := pretty schema_id in
  let fk_loc_id := fk_defs_gid +:+ "_" +:+ pretty fk_loc_i in
  let ref_schema_id := decl_schema_id p_FK_decl in
  let abs_ref_schema_id :=
    match ref_schema_id with
    | None => schemaURI self
    | Some r =>
        if isabsuri (schemaURI self) then urijoin (schemaURI self) r else r
    end in
  let fk_id := abs_ref_schema_id in
  let '(world, fkDefs) := dict_setdefault fk_id [] world in
  let '(fkDefs, fkDef) :=
    match dict_get fk_loc_id fkDefs with
    | Some fkDef => (fkDefs, fkDef)
    | None =>
        let fk_members := default (JArr []) (decl_members p_FK_decl) in
        let fk_pk_name := decl_refers_to p_FK_decl in
        let fkDef :=
          mkFKDef
            (mkFKLoc (schemaURI self) abs_ref_schema_id
                     ("(unknown " +:+ fk_loc_id +:+ ")") [])
            fk_members fk_pk_name in
        (dict_set fk_loc_id fkDef fkDefs, fkDef)
    end in
  let obtainedValues :=
    match FKDef_members fkDef with
    | JArr members => GetKeyValues value members
    | _ => [[value]]
    end in
  (* fkDef.fkLoc.values.add(...) mutates the set held by the entry *)
  let fkDef :=
    FKDef_with_values
      (set_add (mkFKVals obtainedValues (currentJSONFile self))
               (FKLoc_values (FKDef_fkLoc fkDef))) fkDef in
  dict_set fk_id (dict_set fk_loc_id fkDef fkDefs) world.

(** [validate] is a generator that never yields: the result pairs the
    errors it yields with the engine after the call. [fk_defs] is the value
    of the trigger attribute, an array by the trigger schema. *)
Definition validate (self : AbstractRefKey) (fk_defs : list FKDecl)
    (value : JSON) (schema_id : N) : list ValidationError * AbstractRefKey :=
  match fk_defs with
  | [] => ([], self)
  | _ =>
      ([], with_FKWorld
             (foldl (validate_decl self schema_id value) (FKWorld self)
                    (enumerate fk_defs)) self)
  end.

(** *** forget *)

(** The body of the inner loop of [forget] for one declaration. *)
Definition forget_def (the_json_file : string) (removed : bool)
    (fkDef : FKDef) : bool * FKDef :=
  let to_be_removed :=
    filter (λ fkVals, FKVals_where fkVals = the_json_file)
           (FKLoc_values (FKDef_fkLoc fkDef)) in
  if decide (0 < length to_be_removed) then
    (true,
     FKDef_with_values
       (list_difference (FKLoc_values (FKDef_fkLoc fkDef)) to_be_removed)
       fkDef)
  else (removed, fkDef).

Fixpoint forget_defs (the_json_file : string) (removed : bool)
    (fkDefs : dict FKDef) : bool * dict FKDef :=
  match fkDefs with
  | [] => (removed, [])
  | (fk_loc_id, fkDef) :: rest =>
      let '(removed, fkDef) := forget_def the_json_file removed fkDef in
      let '(removed, rest) := forget_defs the_json_file removed rest in
      (removed, (fk_loc_id, fkDef) :: rest)
  end.

Fixpoint forget_world (the_json_file : string) (removed : bool)
    (world : dict (dict FKDef)) : bool * dict (dict FKDef) :=
  match world with
  | [] => (removed, [])
  | (refSchemaURI, fkDefs) :: rest =>
      let '(removed, fkDefs) := forget_defs the_json_file removed fkDefs in
      let '(removed, rest) := forget_world the_json_file removed rest in
      (removed, (refSchemaURI, fkDefs) :: rest)
  end.

Definition forget (self : AbstractRefKey) (the_json_file : string)
  : bool * AbstractRefKey :=
  let '(removed, world) := forget_world the_json_file false (FKWorld self) in
  (removed, with_FKWorld world self).

(** *** cleanup *)

Definition cleanup (self : AbstractRefKey) : AbstractRefKey :=
  with_FKWorld
    (prod_map id (λ fkDefH : dict FKDef,
                    prod_map id (FKDef_with_values []) <$> fkDefH)
       <$> FKWorld self) self.

End AbstractRefKey.

(** ** The second pass *)

#[global] Instance JSON_inhabited : Inhabited JSON := populate JNull.

(** Modelled from the spec: [ALLOWED_ATOMIC_VALUE_TYPES] is imported from
    index_check.py, which is not part of the sources at hand; the allowed
    primitive types are string, number and boolean. The function is the
    test [isinstance(v, ALLOWED_ATOMIC_VALUE_TYPES)]. *)
Definition isinstance_ALLOWED_ATOMIC_VALUE_TYPES (v : JSON) : bool :=
  match v with
  | JStr _ | JInt _ | JBool _ => true
  | JNull | JArr _ | JObj _ => false
  end.

Section SecondPass.
(** [IndexedValues] of index_check.py: the recorded values of one key,
    used through [len] and [in] only. *)
Variable IndexedValues : Type.
Variable iv_len : IndexedValues → nat.
Variable iv_mem : JSON → IndexedValues → bool.
(** IndexKey.GenKeyStrings: the canonical strings of the cross product. *)
Variable GenKeyStrings : list (list JSON) → list string.
(** Python's [str], as [str.format] applies it to a value. *)
Variable py_str : JSON → string.

Context {cls : RefKeyClass}.

Record IndexLoc := mkIndexLoc {
  IndexLoc_schemaURI : string;
  IndexLoc_path : string
}.

(** The fields of [IndexDef] that fk_check.py reads. *)
Record IndexDef := mkIndexDef {
  IndexDef_indexLoc : IndexLoc;
  IndexDef_name : string;
  IndexDef_limit_scope : bool;
  IndexDef_values : IndexedValues
}.

Record IndexContext := mkIndexContext { index_world : dict IndexDef }.
Record CheckContext := mkCheckContext { context : IndexContext }.

(** [PKKeys] declares [vals = []] and [by_name = {}] as defaults. Python
    evaluates a default once, when the class is created, so every [PKKeys]
    built without these two arguments holds the same list object and the
    same dict object. [doSecondPass] never passes them: the two objects
    are process-wide state, kept here in [PKKeysDefaults], and a [PKKeys]
    value carries only the fields it owns. *)
Record PKKeysDefaults := mkPKKeysDefaults {
  default_vals : list IndexedValues;
  default_by_name : gmap string IndexDef
}.

Record PKKeys := mkPKKeys {
  PKKeys_schemaURI : string;
  PKKeys_limit_scope : bool
}.

(** [pkKeys.vals] and [pkKeys.by_name]: reads through the shared objects. *)
Definition PKKeys_vals (heap : PKKeysDefaults) (pkKeys : PKKeys)
  : list IndexedValues := default_vals heap.
Definition PKKeys_by_name (heap : PKKeysDefaults) (pkKeys : PKKeys)
  : gmap string IndexDef := default_by_name heap.

(** [pkKeys.vals.append(v)] *)
Definition PKKeys_vals_append (pkKeys : PKKeys) (v : IndexedValues)
    (heap : PKKeysDefaults) : PKKeysDefaults :=
  mkPKKeysDefaults (default_vals heap ++ [v]) (default_by_name heap).

(** [pkKeys.by_name[name] = pkDef] *)
Definition PKKeys_by_name_set (pkKeys : PKKeys) (name : string)
    (pkDef : IndexDef) (heap : PKKeysDefaults) : PKKeysDefaults :=
  mkPKKeysDefaults (default_vals heap) (<[name := pkDef]> (default_by_name heap)).

(** *** Step A: the primary keys, by owning schema *)

(** The body of the loop over [index_world.values()]. The debug log of a
    repeated name has no effect on the state and is left out. *)
Definition consolidate_pkDef (st : PKKeysDefaults * dict PKKeys)
    (pkDef : IndexDef) : PKKeysDefaults * dict PKKeys :=
  let '(heap, pkContextsHash) := st in
  let pkLoc := IndexDef_indexLoc pkDef in
  let pkKeys := dict_get (IndexLoc_schemaURI pkLoc) pkContextsHash in
  let '(heap, pkContextsHash, pkKeys) :=
    if decide (0 < iv_len (IndexDef_values pkDef)) then
      let '(pkContextsHash, pkKeys) :=
        match pkKeys with
        | None =>
            let pkKeys :=
              mkPKKeys (IndexLoc_schemaURI pkLoc)
                       (IndexDef_limit_scope pkDef) in
            (dict_set (IndexLoc_schemaURI pkLoc) pkKeys pkContextsHash,
             pkKeys)
        | Some pkKeys => (pkContextsHash, pkKeys)
        end in
      (PKKeys_vals_append pkKeys (IndexDef_values pkDef) heap,
       pkContextsHash, Some pkKeys)
    else (heap, pkContextsHash, pkKeys) in
  match pkKeys with
  | Some pkKeys =>
      if decide (is_Some (PKKeys_by_name heap pkKeys !! IndexDef_name pkDef))
      then (heap, pkContextsHash)
      else (PKKeys_by_name_set pkKeys (IndexDef_name pkDef) pkDef heap,
            pkContextsHash)
  | None => (heap, pkContextsHash)
  end.

Definition consolidate_context (st : PKKeysDefaults * dict PKKeys)
    (pkContext : CheckContext) : PKKeysDefaults * dict PKKeys :=
  foldl consolidate_pkDef st (dict_values (index_world (context pkContext))).

Definition consolidate_class (self : AbstractRefKey)
    (st : PKKeysDefaults * dict PKKeys)
    (item : string * list CheckContext) : PKKeysDefaults * dict PKKeys :=
  let '(className, pkContexts) := item in
  if decide (className = joinClass self)
  then foldl consolidate_context st pkContexts
  else st.

(** *** Step B: the foreign keys, by referenced schema *)

(** The state of the checking loops: [uniqueWhere], [uniqueFailedWhere]
    and [errors]. *)
Definition SecondPassAcc : Type :=
  gset string * gset string * list SecondPassErrorDict.

(** The body of the loop taken when the named key is not found. *)
Definition missing_key_fkVals (refSchemaURI : string) (fkDef : FKDef)
    (fkPath : string) (refers_to : string)
    (acc : SecondPassAcc) (fkVals : FKVals) : SecondPassAcc :=
  let '(uniqueWhere, uniqueFailedWhere, errors) := acc in
  let uniqueWhere := {[FKVals_where fkVals]} ∪ uniqueWhere in
  let uniqueFailedWhere := {[FKVals_where fkVals]} ∪ uniqueFailedWhere in
  let obtainedValues := FKVals_values fkVals in
  let isAtomicValue :=
    bool_decide (length obtainedValues = 1)
    && bool_decide (length (obtainedValues !!! 0) = 1)
    && isinstance_ALLOWED_ATOMIC_VALUE_TYPES ((obtainedValues !!! 0) !!! 0) in
  let theValues0 :=
    if isAtomicValue then [(obtainedValues !!! 0) !!! 0]
    else JStr <$> GenKeyStrings obtainedValues in
  (uniqueWhere, uniqueFailedWhere,
   foldl (λ errors theValue0,
            errors ++
            [ mkSecondPassError "stale_fk"
                ("Unmatchable FK (" +:+ py_str theValue0 +:+ ") in "
                 +:+ FKVals_where fkVals +:+ " to schema " +:+ refSchemaURI
                 +:+ " (key " +:+ refers_to +:+ " not found)")
                (FKVals_where fkVals) fkPath ])
         errors theValues0).

(** The body of the loop "Now, checktime!!!!". *)
Definition check_fkVals (refSchemaURI : string) (fkDef : FKDef)
    (fkPath : string) (checkValuesList : list IndexedValues)
    (limit_scope : bool)
    (acc : SecondPassAcc) (fkVals : FKVals) : SecondPassAcc :=
  let '(uniqueWhere, uniqueFailedWhere, errors) := acc in
  let uniqueWhere := {[FKVals_where fkVals]} ∪ uniqueWhere in
  let obtainedValues := FKVals_values fkVals in
  let '(obtainedValues, isAtomicValue) :=
    if limit_scope then
      ([JStr (FKVals_where fkVals)] :: obtainedValues, false)
    else
      (obtainedValues,
       bool_decide (length obtainedValues = 1)
       && bool_decide (length (obtainedValues !!! 0) = 1)
       && isinstance_ALLOWED_ATOMIC_VALUE_TYPES ((obtainedValues !!! 0) !!! 0)) in
  let theValues :=
    if isAtomicValue then [(obtainedValues !!! 0) !!! 0]
    else JStr <$> GenKeyStrings obtainedValues in
  let '(uniqueFailedWhere, errors) :=
    foldl (λ '(uniqueFailedWhere, errors) fkString,
             (* the loop over checkValuesList, left at the first hit *)
             let found := existsb (iv_mem fkString) checkValuesList in
             if found then (uniqueFailedWhere, errors)
             else
               ({[FKVals_where fkVals]} ∪ uniqueFailedWhere,
                errors ++
                [ mkSecondPassError "stale_fk"
                    ("Unmatching FK (" +:+ py_str fkString +:+ ") in "
                     +:+ FKVals_where fkVals +:+ " to schema "
                     +:+ refSchemaURI +:+ " ("
                     +:+ match FKDef_refers_to fkDef with
                         | None => "any primary key"
                         | Some name => "primary key " +:+ name
                         end +:+ ")")
                    (FKVals_where fkVals) fkPath ]))
          (uniqueFailedWhere, errors) theValues in
  (uniqueWhere, uniqueFailedWhere, errors).

(** The body of the loop over [fkDefH.items()] when the referenced schema
    has an aggregate [checkValuesKeys]. *)
Definition check_fkDef (heap : PKKeysDefaults) (refSchemaURI : string)
    (checkValuesKeys : PKKeys)
    (acc : SecondPassAcc) (item : string * FKDef) : SecondPassAcc :=
  let '(fk_loc_id, fkDef) := item in
  let fkLoc := FKDef_fkLoc fkDef in
  let fkPath := FKLoc_path fkLoc in
  match FKDef_refers_to fkDef with
  | Some refers_to =>
      match PKKeys_by_name heap checkValuesKeys !! refers_to with
      | None =>
          foldl (missing_key_fkVals refSchemaURI fkDef fkPath refers_to)
                acc (FKLoc_values fkLoc)
      | Some uDef =>
          foldl (check_fkVals refSchemaURI fkDef fkPath
                   [IndexDef_values uDef] (IndexDef_limit_scope uDef))
                acc (FKLoc_values fkLoc)
      end
  | None =>
      foldl (check_fkVals refSchemaURI fkDef fkPath
               (PKKeys_vals heap checkValuesKeys)
               (PKKeys_limit_scope checkValuesKeys))
            acc (FKLoc_values fkLoc)
  end.

(** The body of the loop taken when the referenced schema has none. *)
Definition dangling_fkVals (self : AbstractRefKey) (refSchemaURI : string)
    (fkPath : string)
    (acc : SecondPassAcc) (fkVals : FKVals) : SecondPassAcc :=
  let '(uniqueWhere, uniqueFailedWhere, errors) := acc in
  ({[FKVals_where fkVals]} ∪ uniqueWhere,
   {[FKVals_where fkVals]} ∪ uniqueFailedWhere,
   errors ++
   [ mkSecondPassError _danglingErrorReason
       ("No available documents from " +:+ refSchemaURI
        +:+ " schema, required by " +:+ schemaURI self)
       (FKVals_where fkVals) fkPath ]).

Definition dangling_fkDef (self : AbstractRefKey) (refSchemaURI : string)
    (acc : SecondPassAcc) (item : string * FKDef) : SecondPassAcc :=
  let '(fk_loc_id, fkDef) := item in
  let fkLoc := FKDef_fkLoc fkDef in
  let fkPath := FKLoc_path fkLoc in
  foldl (dangling_fkVals self refSchemaURI fkPath) acc (FKLoc_values fkLoc).

(** The body of the loop over [self.FKWorld.items()]. *)
Definition check_refSchema (self : AbstractRefKey) (heap : PKKeysDefaults)
    (pkContextsHash : dict PKKeys)
    (acc : SecondPassAcc) (item : string * dict FKDef) : SecondPassAcc :=
  let '(refSchemaURI, fkDefH) := item in
  match dict_get refSchemaURI pkContextsHash with
  | Some checkValuesKeys =>
      foldl (check_fkDef heap refSchemaURI checkValuesKeys) acc fkDefH
  | None =>
      foldl (dangling_fkDef self refSchemaURI) acc fkDefH
  end.

(** [doSecondPass]: the returned triple, and the shared defaults of
    [PKKeys] as the call leaves them. *)
Definition doSecondPass (self : AbstractRefKey) (heap : PKKeysDefaults)
    (l_customFeatureValidatorsContext : dict (list CheckContext))
  : SecondPassAcc * PKKeysDefaults :=
  let '(heap, pkContextsHash) :=
    foldl (consolidate_class self) (heap, [])
          l_customFeatureValidatorsContext in
  (foldl (check_refSchema self heap pkContextsHash) (∅, ∅, [])
         (FKWorld self),
   heap).

End SecondPass.

(** * Statements *)

(** ** Vocabulary of the statements *)

(** The entry of a declaration: the referenced schema first, the site id
    second. *)
Definition world_get (refSchemaURI fk_loc_id : string)
    (world : dict (dict FKDef)) : option FKDef :=
  dict_get refSchemaURI world ≫= dict_get fk_loc_id.

(** The site id that bootstrap and validate build from the identity of the
    schema node and the position of the declaration in the array. *)
Definition site_id (gid : N) (fk_loc_i : nat) : string :=
  pretty gid +:+ "_" +:+ pretty fk_loc_i.

(** Two entries describe the same declaration: everything but the gathered
    occurrences agrees. *)
Definition same_declaration (d d' : FKDef) : Prop :=
  FKLoc_schemaURI (FKDef_fkLoc d') = FKLoc_schemaURI (FKDef_fkLoc d)
  ∧ FKLoc_refSchemaURI (FKDef_fkLoc d') = FKLoc_refSchemaURI (FKDef_fkLoc d)
  ∧ FKLoc_path (FKDef_fkLoc d') = FKLoc_path (FKDef_fkLoc d)
  ∧ FKDef_members d' = FKDef_members d
  ∧ FKDef_refers_to d' = FKDef_refers_to d.

(** Two registries hold the same referenced schemas and the same site ids in
    the same order, and [R] relates the entries position by position. *)
Definition world_rel (R : FKDef → FKDef → Prop)
    (w w' : dict (dict FKDef)) : Prop :=
  Forall2 (λ e e' : string * dict FKDef,
             e.1 = e'.1
             ∧ Forall2 (λ x x' : string * FKDef, x.1 = x'.1 ∧ R x.2 x'.2)
                       e.2 e'.2)
          w w'.

(** An occurrence gathered under some declaration of the registry. *)
Definition occurrence_in (world : dict (dict FKDef)) (fkVals : FKVals) : Prop :=
  ∃ refSchemaURI fkDefH fk_loc_id fkDef,
    (refSchemaURI, fkDefH) ∈ world
    ∧ (fk_loc_id, fkDef) ∈ fkDefH
    ∧ fkVals ∈ FKLoc_values (FKDef_fkLoc fkDef).

(** ** Dicts *)

Section DictFacts.
Context {V : Type}.
Implicit Types (d : dict V) (k : string) (v : V).

Lemma dict_get_set d k k' v :
  dict_get k (dict_set k' v d)
  = if decide (k = k') then Some v else dict_get k d.
Proof.
  induction d as [| [k0 v0] d IH]; simpl.
  - by repeat case_decide.
  - destruct (decide (k' = k0)) as [-> |]; simpl;
      repeat case_decide; simplify_eq; done.
Qed.

Lemma dict_get_set_eq d k v : dict_get k (dict_set k v d) = Some v.
Proof. rewrite dict_get_set. by case_decide. Qed.

Lemma dict_get_set_ne d k k' v :
  k ≠ k' → dict_get k (dict_set k' v d) = dict_get k d.
Proof. intros. rewrite dict_get_set. by case_decide. Qed.

Lemma dict_set_set d k v v' :
  dict_set k v (dict_set k v' d) = dict_set k v d.
Proof.
  induction d as [| [k0 v0] d IH]; simpl.
  - by case_decide.
  - destruct (decide (k = k0)) as [-> |]; simpl; case_decide; congruence.
Qed.

Lemma dict_get_Some_elem d k v : dict_get k d = Some v → (k, v) ∈ d.
Proof.
  induction d as [| [k0 v0] d IH]; simpl; [done |].
  case_decide; intros; simplify_eq; [left | right; auto].
Qed.

Lemma dict_get_None d k : dict_get k d = None ↔ k ∉ dict_keys d.
Proof.
  unfold dict_keys. induction d as [| [k0 v0] d IH]; simpl.
  - split; [intros _; apply not_elem_of_nil | done].
  - rewrite not_elem_of_cons. case_decide.
    + split; [done | by intros [? _]].
    + rewrite IH. split; [by intros | by intros [_ ?]].
Qed.

Lemma dict_keys_set_in d k v :
  k ∈ dict_keys d → dict_keys (dict_set k v d) = dict_keys d.
Proof.
  unfold dict_keys. induction d as [| [k0 v0] d IH]; simpl.
  - by intros ?%elem_of_nil.
  - intros Hin. case_decide; subst; simpl; [done |].
    f_equal. apply IH. apply elem_of_cons in Hin as [? | ?]; done.
Qed.

Lemma dict_keys_set_notin d k v :
  k ∉ dict_keys d → dict_keys (dict_set k v d) = dict_keys d ++ [k].
Proof.
  unfold dict_keys. induction d as [| [k0 v0] d IH]; simpl; [done |].
  rewrite not_elem_of_cons. intros [? ?]. case_decide; [done |].
  simpl. f_equal. by apply IH.
Qed.

End DictFacts.

Lemma foldl_ext {A B} (f g : A → B → A) (a : A) (l : list B) :
  (∀ a x, f a x = g a x) → foldl f a l = foldl g a l.
Proof.
  intros Hfg. revert a. induction l as [| x l IH]; intros a; simpl; [done |].
  by rewrite Hfg, IH.
Qed.

Lemma world_rel_refl (R : FKDef → FKDef → Prop) w :
  (∀ d, R d d) → world_rel R w w.
Proof.
  intros HR. apply Forall2_same_length_lookup_2; [done |].
  intros i e e' ? ?; simplify_eq. split; [done |].
  apply Forall2_same_length_lookup_2; [done |].
  intros j x x' ? ?; by simplify_eq.
Qed.

(** ** cleanup *)

Lemma FKDef_with_values_same vs d : same_declaration d (FKDef_with_values vs d).
Proof. by repeat split. Qed.

(** C9. After [cleanup] the registry holds the same referenced schemas and
    the same site ids in the same order; every entry keeps the owning and
    the referenced URI, the path, the members and the target key name of
    the declaration, every occurrence set is empty, and the other
    attributes of the engine are untouched. *)
Theorem cleanup_keeps_declarations (self : AbstractRefKey) :
  world_rel
    (λ d d', same_declaration d d' ∧ FKLoc_values (FKDef_fkLoc d') = [])
    (FKWorld self) (FKWorld (cleanup self))
  ∧ schemaURI (cleanup self) = schemaURI self
  ∧ jsonSchemaSource (cleanup self) = jsonSchemaSource self
  ∧ currentJSONFile (cleanup self) = currentJSONFile self
  ∧ joinClass (cleanup self) = joinClass self.
Proof.
  split; [| done].
  unfold cleanup, world_rel; simpl.
  apply Forall2_fmap_r, Forall_Forall2_diag, Forall_forall.
  intros [uri fkDefH] _; simpl. split; [done |].
  apply Forall2_fmap_r, Forall_Forall2_diag, Forall_forall.
  intros [sid fkDef] _; simpl. split; [done |].
  split; [apply FKDef_with_values_same | done].
Qed.

(** ** forget *)

Lemma FKDef_with_values_id d :
  FKDef_with_values (FKLoc_values (FKDef_fkLoc d)) d = d.
Proof. by destruct d as [[] ? ?]. Qed.

Lemma list_difference_filter {A} `{EqDecision A} (P : A → Prop)
    `{∀ x, Decision (P x)} (l l0 : list A) :
  l ⊆ l0 →
  list_difference l (filter P l0) = filter (λ x, ¬ P x) l.
Proof.
  induction l as [| x l IH]; intros Hsub; simpl; [done |].
  assert (x ∈ l0) as Hx by (apply Hsub; left).
  assert (l ⊆ l0) as Hl by (intros y Hy; apply Hsub; by right).
  rewrite filter_cons.
  destruct (decide_rel elem_of x (filter P l0)) as [Hin | Hnin].
  - apply list_elem_of_filter in Hin as [HP _].
    rewrite decide_False by tauto. by apply IH.
  - rewrite decide_True.
    + f_equal. by apply IH.
    + intros HP. apply Hnin. by apply list_elem_of_filter.
Qed.

Lemma filter_nil_keeps {A} (P : A → Prop) `{∀ x, Decision (P x)} (l : list A) :
  filter P l = [] → filter (λ x, ¬ P x) l = l.
Proof.
  induction l as [| x l IH]; [done |].
  rewrite !filter_cons. destruct (decide (P x)); [done |].
  intros Hnil. rewrite decide_True by done. f_equal. by apply IH.
Qed.

(** What one declaration looks like once document [f] is forgotten. *)
Definition forgotten (f : string) (d d' : FKDef) : Prop :=
  same_declaration d d'
  ∧ FKLoc_values (FKDef_fkLoc d')
    = filter (λ v, FKVals_where v ≠ f) (FKLoc_values (FKDef_fkLoc d)).

Definition mentions (f : string) (d : FKDef) : Prop :=
  ∃ v, v ∈ FKLoc_values (FKDef_fkLoc d) ∧ FKVals_where v = f.

Lemma forget_def_spec f removed d :
  forgotten f d (forget_def f removed d).2
  ∧ ((forget_def f removed d).1 = true ↔ removed = true ∨ mentions f d).
Proof.
  unfold forget_def, forgotten, mentions.
  set (vs := FKLoc_values (FKDef_fkLoc d)).
  destruct (filter (λ v, FKVals_where v = f) vs) as [| v0 tbr] eqn:Hf.
  - simpl. split.
    + split; [by repeat split |].
      symmetry. by apply filter_nil_keeps.
    + split; [by left |]. intros [? | (v & Hv & Hw)]; [done |].
      assert (v ∈ filter (λ v, FKVals_where v = f) vs) as Hin
        by (by apply list_elem_of_filter).
      rewrite Hf in Hin. by apply elem_of_nil in Hin.
  - rewrite decide_True by (simpl; lia). simpl. split.
    + split; [apply FKDef_with_values_same |]. simpl.
      rewrite <- Hf. by apply list_difference_filter.
    + split; [| done]. intros _. right. exists v0.
      assert (v0 ∈ filter (λ v, FKVals_where v = f) vs) as Hin
        by (rewrite Hf; left).
      by apply list_elem_of_filter in Hin as [? ?].
Qed.

Lemma forget_defs_spec f removed fkDefs :
  Forall2 (λ x x' : string * FKDef, x.1 = x'.1 ∧ forgotten f x.2 x'.2)
          fkDefs (forget_defs f removed fkDefs).2
  ∧ ((forget_defs f removed fkDefs).1 = true
     ↔ removed = true ∨ ∃ sid d, (sid, d) ∈ fkDefs ∧ mentions f d).
Proof.
  revert removed. induction fkDefs as [| [sid d] rest IH]; intros removed; simpl.
  - split; [constructor |]. split; [by left |].
    intros [? | (? & ? & ?%elem_of_nil & _)]; done.
  - destruct (forget_def_spec f removed d) as [Hd Hr].
    destruct (forget_def f removed d) as [r1 d'] eqn:E1; simpl in *.
    destruct (IH r1) as [Hrest Hr2].
    destruct (forget_defs f r1 rest) as [r2 rest'] eqn:E2; simpl in *.
    split; [by constructor |].
    rewrite Hr2, Hr. split.
    + intros [[? | ?] | (sid' & d0 & Hin & Hm)]; [by left | right | right].
      * exists sid, d. split; [left | done].
      * exists sid', d0. split; [by right | done].
    + intros [? | (sid' & d0 & Hin & Hm)]; [by left; left |].
      apply elem_of_cons in Hin as [Heq | Hin]; simplify_eq.
      * left. by right.
      * right. by exists sid', d0.
Qed.

Lemma forget_world_spec f removed world :
  world_rel (forgotten f) world (forget_world f removed world).2
  ∧ ((forget_world f removed world).1 = true
     ↔ removed = true ∨ ∃ v, occurrence_in world v ∧ FKVals_where v = f).
Proof.
  revert removed. induction world as [| [uri H] rest IH]; intros removed; simpl.
  - split; [constructor |]. split; [by left |].
    intros [? | (v & (? & ? & ? & ? & ?%elem_of_nil & _) & _)]; done.
  - destruct (forget_defs_spec f removed H) as [HH Hr].
    destruct (forget_defs f removed H) as [r1 H'] eqn:E1; simpl in *.
    destruct (IH r1) as [Hrest Hr2].
    destruct (forget_world f r1 rest) as [r2 rest'] eqn:E2; simpl in *.
    split; [by constructor |].
    rewrite Hr2, Hr. unfold occurrence_in, mentions. split.
    + intros [[? | (sid & d & Hin & v & Hv & Hw)]
             | (v & (u & H0 & sid & d & Hu & Hin & Hv) & Hw)].
      * by left.
      * right. exists v. split; [| done].
        exists uri, H, sid, d. split; [left | done].
      * right. exists v. split; [| done].
        exists u, H0, sid, d. split; [by right | done].
    + intros [? | (v & (u & H0 & sid & d & Hu & Hin & Hv) & Hw)]; [by left; left |].
      apply elem_of_cons in Hu as [Heq | Hu]; simplify_eq.
      * left. right. exists sid, d. split; [done |]. by exists v.
      * right. exists v. split; [| done]. by exists u, H0, sid, d.
Qed.

(** C7. [forget(d)] keeps every referenced schema and every site id in
    place, keeps each declaration (owning and referenced URI, path, members,
    target key name), leaves in each occurrence set exactly the occurrences
    whose document is not [d], in their order, and returns [True] exactly
    when some occurrence of the registry had document [d]. *)
Theorem forget_removes_exactly (self : AbstractRefKey) (the_json_file : string) :
  world_rel (forgotten the_json_file)
            (FKWorld self) (FKWorld (forget self the_json_file).2)
  ∧ ((forget self the_json_file).1 = true
     ↔ ∃ v, occurrence_in (FKWorld self) v ∧ FKVals_where v = the_json_file)
  ∧ schemaURI (forget self the_json_file).2 = schemaURI self
  ∧ jsonSchemaSource (forget self the_json_file).2 = jsonSchemaSource self
  ∧ currentJSONFile (forget self the_json_file).2 = currentJSONFile self
  ∧ joinClass (forget self the_json_file).2 = joinClass self.
Proof.
  unfold forget.
  destruct (forget_world_spec the_json_file false (FKWorld self)) as [Hw Hr].
  destruct (forget_world the_json_file false (FKWorld self)) as [r w] eqn:E.
  simpl in *. split; [done |]. split; [| done].
  rewrite Hr. split; [intros [? | ?]; done | by right].
Qed.

(** ** Site ids *)

(** No character of the string is the separator of a site id. *)
Fixpoint no_underscore (s : string) : Prop :=
  match s with
  | EmptyString => True
  | String c r => c ≠ "_"%char ∧ no_underscore r
  end.

Lemma pretty_N_go_no_underscore (x : N) (s : string) :
  no_underscore s → no_underscore (pretty_N_go x s).
Proof.
  revert s. induction (N.lt_wf_0 x) as [x _ IH]; intros s Hs.
  assert (x = 0 ∨ 0 < x)%N as [-> | Hpos] by lia.
  - by rewrite pretty_N_go_0.
  - rewrite pretty_N_go_step by done. apply IH.
    + by apply N.div_lt.
    + split; [| done]. unfold pretty_N_char. by repeat case_match.
Qed.

Lemma pretty_N_no_underscore (x : N) : no_underscore (pretty x).
Proof.
  unfold pretty, pretty_N. case_decide.
  - by split.
  - by apply pretty_N_go_no_underscore.
Qed.

Lemma underscore_split (s1 s2 t1 t2 : string) :
  no_underscore s1 → no_underscore s2 →
  s1 +:+ "_" +:+ t1 = s2 +:+ "_" +:+ t2 → s1 = s2 ∧ t1 = t2.
Proof.
  revert s2. induction s1 as [| c s1 IH]; intros [| c' s2] H1 H2 Heq;
    cbn in *.
  - by simplify_eq.
  - destruct H2 as [Hc _]. by simplify_eq.
  - destruct H1 as [Hc _]. by simplify_eq.
  - destruct H1 as [_ H1], H2 as [_ H2]. injection Heq as -> Heq.
    destruct (IH s2 H1 H2 Heq) as [-> ->]. done.
Qed.

Lemma site_id_inj (g g' : N) (i i' : nat) :
  site_id g i = site_id g' i' → g = g' ∧ i = i'.
Proof.
  unfold site_id. intros Heq.
  apply underscore_split in Heq as [Hg Hi];
    [| apply pretty_N_no_underscore ..].
  split; [by apply (inj pretty) | by apply (inj pretty)].
Qed.

(** ** Updates of the registry *)

(** [FKWorld[uri][sid] = fkDef], the inner dict being created when [uri]
    is new. *)
Definition world_set (uri sid : string) (fkDef : FKDef)
    (world : dict (dict FKDef)) : dict (dict FKDef) :=
  dict_set uri (dict_set sid fkDef (default [] (dict_get uri world))) world.

Lemma world_get_set uri sid uri' sid' fkDef world :
  world_get uri sid (world_set uri' sid' fkDef world)
  = if decide (uri = uri' ∧ sid = sid') then Some fkDef
    else world_get uri sid world.
Proof.
  unfold world_get, world_set. rewrite dict_get_set.
  destruct (decide (uri = uri')) as [-> |]; simpl.
  - rewrite dict_get_set. destruct (decide (sid = sid')) as [-> |].
    + by rewrite decide_True.
    + rewrite decide_False by tauto.
      by destruct (dict_get uri' world).
  - by rewrite decide_False by tauto.
Qed.

Lemma world_get_foldl_set
    (ops : list (string * string * FKDef)) (world : dict (dict FKDef))
    (uri sid : string) (fkDef : FKDef) :
  NoDup (ops.*1) → (uri, sid, fkDef) ∈ ops →
  world_get uri sid
    (foldl (λ w op, world_set op.1.1 op.1.2 op.2 w) world ops)
  = Some fkDef.
Proof.
  induction ops as [| [[u s] d] ops IH] using rev_ind; intros Hnd Hin.
  - by apply elem_of_nil in Hin.
  - rewrite foldl_snoc, world_get_set; simpl.
    rewrite fmap_app in Hnd. apply NoDup_app in Hnd as (Hnd & Hfresh & _).
    apply elem_of_app in Hin as [Hin | Hin].
    + rewrite decide_False; [by apply IH |].
      intros [-> ->]. apply (Hfresh (u, s)); [| simpl; left].
      apply list_elem_of_fmap. by exists (u, s, fkDef).
    + apply list_elem_of_singleton in Hin. simplify_eq.
      by rewrite decide_True.
Qed.

(** Without the distinctness of the keys, the entry found is the one the
    last update under that key wrote. *)
Lemma world_get_foldl_set_last
    (ops : list (string * string * FKDef)) (world : dict (dict FKDef))
    (uri sid : string) (fkDef : FKDef) :
  (uri, sid, fkDef) ∈ ops →
  ∃ fkDef',
    (uri, sid, fkDef') ∈ ops
    ∧ world_get uri sid
        (foldl (λ w op, world_set op.1.1 op.1.2 op.2 w) world ops)
      = Some fkDef'.
Proof.
  induction ops as [| [[u s] d] ops IH] using rev_ind; intros Hin.
  - by apply elem_of_nil in Hin.
  - rewrite foldl_snoc, world_get_set; simpl.
    destruct (decide (uri = u ∧ sid = s)) as [[-> ->] | Hne].
    + exists d. split; [| done]. apply elem_of_app. right. left.
    + apply elem_of_app in Hin as [Hin | Hin].
      * destruct (IH Hin) as (d' & Hd' & Hget). exists d'.
        split; [| done]. apply elem_of_app. by left.
      * apply list_elem_of_singleton in Hin. simplify_eq. tauto.
Qed.

Lemma foldl_cons {A B} (f : A → B → A) (a : A) (x : B) (l : list B) :
  foldl f a (x :: l) = foldl f (f a x) l.
Proof. done. Qed.

Lemma fmap_bind_comm {A B C} (g : B → C) (f : A → list B) (l : list A) :
  g <$> (l ≫= f) = l ≫= (λ x, g <$> f x).
Proof.
  induction l as [| x l IH]; csimpl; [done |]. by rewrite fmap_app, IH.
Qed.

Lemma foldl_bind {A B C} (f : A → C → A) (g : B → list C) (a : A) (l : list B) :
  foldl f a (l ≫= g) = foldl (λ a x, foldl f a (g x)) a l.
Proof.
  revert a. induction l as [| x l IH]; intros a; csimpl; [done |].
  by rewrite foldl_app, IH.
Qed.

Lemma NoDup_fmap_eq {A B} (f : A → B) (l : list A) (x y : A) :
  NoDup (f <$> l) → x ∈ l → y ∈ l → f x = f y → x = y.
Proof.
  intros Hnd Hx Hy Hf.
  apply list_elem_of_lookup in Hx as [i Hi], Hy as [j Hj].
  assert (i = j) as ->; [| congruence].
  eapply NoDup_lookup; [exact Hnd | |];
    rewrite list_lookup_fmap; [by rewrite Hi | by rewrite Hj, Hf].
Qed.

(** ** bootstrap *)

Section BootstrapFacts.
Variable isabsuri : string → bool.
Variable urijoin : string → string → string.
Context {cls : RefKeyClass}.

(** The referenced schema of a declaration, in the words of the design:
    the declaring schema itself when no target id is given; otherwise the
    target id joined against the declaring URI when that URI is absolute,
    and the target id as it stands when it is not. *)
Definition resolved_target (self : AbstractRefKey) (d : FKDecl) : string :=
  match decl_schema_id d with
  | None => schemaURI self
  | Some target =>
      if isabsuri (schemaURI self) then urijoin (schemaURI self) target
      else target
  end.

Definition fk_no_schema_error (self : AbstractRefKey) (target : string)
  : BootstrapErrorDict :=
  mkBootstrapError "fk_no_schema"
    ("No schema with " +:+ target +:+ " id, required by "
     +:+ jsonSchemaSource self +:+ " (" +:+ schemaURI self +:+ ")").

(** The bootstrap errors one declaration accounts for. *)
Definition bootstrap_errors_of (self : AbstractRefKey)
    (refSchemaCache : gset string) (d : FKDecl) : list BootstrapErrorDict :=
  if decide (resolved_target self d ∈ refSchemaCache) then []
  else [fk_no_schema_error self (resolved_target self d)].

(** The entry bootstrap registers for the declaration at position [i] of
    the array of [loc]. *)
Definition registered_FKDef (self : AbstractRefKey) (loc : FeatureLoc)
    (i : nat) (d : FKDecl) : FKDef :=
  mkFKDef
    (mkFKLoc (schemaURI self) (resolved_target self d)
             (loc_path loc +:+ "/" +:+ pretty i) [])
    (default (JArr []) (decl_members d)) (decl_refers_to d).

Definition bootstrap_op (self : AbstractRefKey) (loc : FeatureLoc)
    (it : nat * FKDecl) : string * string * FKDef :=
  (resolved_target self it.2, site_id (loc_context_id loc) it.1,
   registered_FKDef self loc it.1 it.2).

Lemma bootstrap_decl_eq self cache loc errors world it :
  bootstrap_decl isabsuri urijoin self cache loc (errors, world) it
  = (errors ++ bootstrap_errors_of self cache it.2,
     world_set (bootstrap_op self loc it).1.1 (bootstrap_op self loc it).1.2
               (bootstrap_op self loc it).2 world).
Proof.
  destruct it as [i d]. unfold bootstrap_decl, bootstrap_errors_of,
    bootstrap_op, registered_FKDef, world_set, dict_setdefault; simpl.
  fold (resolved_target self d). fold (site_id (loc_context_id loc) i).
  set (uri := resolved_target self d).
  destruct (dict_get uri world) as [fkDefH |] eqn:Hget; simpl.
  - case_decide; by rewrite ?app_nil_r.
  - rewrite dict_set_set. case_decide; by rewrite ?app_nil_r.
Qed.

Lemma bootstrap_decls_eq self cache loc (its : list (nat * FKDecl)) errors world :
  foldl (bootstrap_decl isabsuri urijoin self cache loc) (errors, world) its
  = (errors ++ (its ≫= λ it, bootstrap_errors_of self cache it.2),
     foldl (λ w op, world_set op.1.1 op.1.2 op.2 w) world
           (bootstrap_op self loc <$> its)).
Proof.
  revert errors world. induction its as [| it its IH]; intros errors world.
  - by rewrite app_nil_r.
  - rewrite foldl_cons, bootstrap_decl_eq, IH, fmap_cons, bind_cons,
      foldl_cons, <- app_assoc. done.
Qed.

Definition bootstrap_ops (self : AbstractRefKey) (keyList : list FeatureLoc)
  : list (string * string * FKDef) :=
  keyList ≫= λ loc, bootstrap_op self loc <$> enumerate (loc_fk_defs loc).

Lemma bootstrap_locs_eq self cache (keyList : list FeatureLoc) errors world :
  foldl (bootstrap_loc isabsuri urijoin self cache) (errors, world) keyList
  = (errors ++ (keyList ≫= λ loc, enumerate (loc_fk_defs loc)
                  ≫= λ it, bootstrap_errors_of self cache it.2),
     foldl (λ w op, world_set op.1.1 op.1.2 op.2 w) world
           (bootstrap_ops self keyList)).
Proof.
  unfold bootstrap_ops.
  revert errors world. induction keyList as [| loc keyList IH];
    intros errors world.
  - by rewrite app_nil_r.
  - rewrite foldl_cons. unfold bootstrap_loc at 2.
    rewrite bootstrap_decls_eq, IH, !bind_cons, foldl_app, <- app_assoc. done.
Qed.

Lemma bootstrap_ops_NoDup self (keyList : list FeatureLoc) :
  NoDup (loc_context_id <$> keyList) → NoDup ((bootstrap_ops self keyList).*1).
Proof.
  intros Hnd. unfold bootstrap_ops. rewrite fmap_bind_comm.
  apply NoDup_bind.
  - intros loc1 loc2 key Hl1 Hl2 H1 H2.
    apply list_elem_of_fmap in H1 as (op1 & -> & H1).
    apply list_elem_of_fmap in H2 as (op2 & Heq & H2).
    apply list_elem_of_fmap in H1 as (it1 & -> & _).
    apply list_elem_of_fmap in H2 as (it2 & -> & _).
    unfold bootstrap_op in Heq; simpl in Heq.
    injection Heq as _ Hsid. apply site_id_inj in Hsid as [Hg _].
    by apply (NoDup_fmap_eq loc_context_id keyList).
  - intros loc _. apply NoDup_alt. intros i j key.
    unfold enumerate. rewrite !list_lookup_fmap, !list_lookup_imap.
    destruct (loc_fk_defs loc !! i) as [di |]; [| done].
    destruct (loc_fk_defs loc !! j) as [dj |]; [| done].
    unfold bootstrap_op; simpl. intros [= <-] [= _ Hsid].
    by apply site_id_inj in Hsid as [_ ?].
  - by apply NoDup_fmap_1 in Hnd.
Qed.

(** C5, as the code has it. Without the key list of the trigger attribute
    in [keyRefs], as with the default argument, [bootstrap] raises
    [KeyError] before any declaration is processed. With it, [bootstrap]
    returns without raising. Its error list holds, in the order of the
    declarations, one [fk_no_schema] error naming the resolved target and
    the declaring schema for every declaration whose resolved target is not
    in the catalogue, and nothing else. Every declaration, reported or not,
    leaves an entry under its resolved target URI and under the site id
    built from the identity of its schema node and its array position: the
    entry, without occurrence, of a declaration with that node identity,
    that position and that target, and of this very declaration, with its
    path, members and target key name, when the schema nodes of the key
    list are distinct objects. *)
Theorem bootstrap_registers_and_reports
    (self : AbstractRefKey) (id2ElemId : dict string)
    (keyRefs : dict (list FeatureLoc)) (refSchemaCache : gset string) :
  match dict_get triggerAttribute keyRefs with
  | None =>
      bootstrap isabsuri urijoin self (id2ElemId, keyRefs, refSchemaCache)
      = Raise (KeyError triggerAttribute)
  | Some keyList =>
      ∃ errors self',
        bootstrap isabsuri urijoin self (id2ElemId, keyRefs, refSchemaCache)
        = Ok (errors, self')
        ∧ errors
          = (keyList ≫= λ loc, enumerate (loc_fk_defs loc)
               ≫= λ it, bootstrap_errors_of self refSchemaCache it.2)
        ∧ (∀ loc i d,
             loc ∈ keyList → loc_fk_defs loc !! i = Some d →
             ∃ loc' d',
               loc' ∈ keyList
               ∧ loc_context_id loc' = loc_context_id loc
               ∧ loc_fk_defs loc' !! i = Some d'
               ∧ resolved_target self d' = resolved_target self d
               ∧ world_get (resolved_target self d)
                           (site_id (loc_context_id loc) i) (FKWorld self')
                 = Some (registered_FKDef self loc' i d'))
        ∧ (NoDup (loc_context_id <$> keyList) →
           ∀ loc i d,
             loc ∈ keyList → loc_fk_defs loc !! i = Some d →
             world_get (resolved_target self d)
                       (site_id (loc_context_id loc) i) (FKWorld self')
             = Some (registered_FKDef self loc i d))
  end.
Proof.
  unfold bootstrap.
  destruct (dict_get triggerAttribute keyRefs) as [keyList |]; [| done].
  rewrite bootstrap_locs_eq. eexists _, _. split; [reflexivity |].
  split; [done |].
  assert (∀ loc i d, loc ∈ keyList → loc_fk_defs loc !! i = Some d →
            (resolved_target self d, site_id (loc_context_id loc) i,
             registered_FKDef self loc i d) ∈ bootstrap_ops self keyList)
    as Hop.
  { intros loc i d Hloc Hd. unfold bootstrap_ops.
    apply list_elem_of_bind. exists loc. split; [| done].
    apply list_elem_of_fmap. exists (i, d). split; [done |].
    unfold enumerate. by apply (elem_of_lookup_imap_2 pair). }
  split.
  - intros loc i d Hloc Hd. simpl.
    destruct (world_get_foldl_set_last _ (FKWorld self) _ _ _ (Hop loc i d Hloc Hd))
      as (fkDef' & Hin & Hget).
    unfold bootstrap_ops in Hin.
    apply list_elem_of_bind in Hin as (loc' & Hin & Hloc').
    apply list_elem_of_fmap in Hin as ([i' d'] & Heq & Hin).
    unfold enumerate in Hin.
    apply elem_of_lookup_imap in Hin as (j & x & [= -> ->] & Hd').
    unfold bootstrap_op in Heq; simpl in Heq.
    injection Heq as Htarget Hsid ->.
    apply site_id_inj in Hsid as [Hg ->].
    exists loc', x. by rewrite Hget.
  - intros Hnd loc i d Hloc Hd. simpl. apply world_get_foldl_set.
    + by apply bootstrap_ops_NoDup.
    + by apply Hop.
Qed.

(** Without the key list of the trigger attribute, as with the default
    argument [({}, {}, {})], the subscript [keyRefs[self.triggerAttribute]]
    raises. *)
Lemma bootstrap_without_key_list
    (self : AbstractRefKey) (id2ElemId : dict string)
    (keyRefs : dict (list FeatureLoc)) (refSchemaCache : gset string) :
  dict_get triggerAttribute keyRefs = None →
  bootstrap isabsuri urijoin self (id2ElemId, keyRefs, refSchemaCache)
  = Raise (KeyError triggerAttribute).
Proof. intros Hkeys. unfold bootstrap. by rewrite Hkeys. Qed.

End BootstrapFacts.

(** ** validate (gathering) *)

(** The registry changes in occurrence sets only: same referenced schemas,
    same site ids, same declarations. *)
Definition only_occurrences_change (w w' : dict (dict FKDef)) : Prop :=
  world_rel same_declaration w w'.

Section GatheringFacts.
Variable isabsuri : string → bool.
Variable urijoin : string → string → string.
Variable GetKeyValues : JSON → list JSON → list (list JSON).
Context {cls : RefKeyClass}.

(** The declaration synthesized when gathering meets a site id that was
    not bootstrapped. *)
Definition synthesized_FKDef (self : AbstractRefKey) (schema_id : N)
    (i : nat) (d : FKDecl) : FKDef :=
  mkFKDef
    (mkFKLoc (schemaURI self) (resolved_target isabsuri urijoin self d)
             ("(unknown " +:+ site_id schema_id i +:+ ")") [])
    (default (JArr []) (decl_members d)) (decl_refers_to d).

(** Extraction, in the words of the design: one value sequence per member
    when the member list is a proper list, otherwise the whole value as a
    single-member, single-value key. *)
Definition extracted_values (fkDef : FKDef) (value : JSON) : list (list JSON) :=
  match FKDef_members fkDef with
  | JArr members => GetKeyValues value members
  | _ => [[value]]
  end.

(** The declaration addressed by one item of the array: the registered
    one, or else the synthesized one. *)
Definition addressed_FKDef (self : AbstractRefKey) (schema_id : N)
    (world : dict (dict FKDef)) (i : nat) (d : FKDecl) : FKDef :=
  default (synthesized_FKDef self schema_id i d)
          (world_get (resolved_target isabsuri urijoin self d)
                     (site_id schema_id i) world).

Definition gathered_occurrence (self : AbstractRefKey) (schema_id : N)
    (world : dict (dict FKDef)) (value : JSON) (i : nat) (d : FKDecl) : FKVals :=
  mkFKVals (extracted_values (addressed_FKDef self schema_id world i d) value)
           (currentJSONFile self).

Lemma validate_decl_eq self schema_id value world i d :
  validate_decl isabsuri urijoin GetKeyValues self schema_id value world (i, d)
  = world_set (resolved_target isabsuri urijoin self d) (site_id schema_id i)
      (FKDef_with_values
         (set_add (gathered_occurrence self schema_id world value i d)
                  (FKLoc_values
                     (FKDef_fkLoc (addressed_FKDef self schema_id world i d))))
         (addressed_FKDef self schema_id world i d))
      world.
Proof.
  unfold validate_decl, gathered_occurrence, addressed_FKDef,
    extracted_values, synthesized_FKDef, world_set, world_get,
    dict_setdefault.
  fold (resolved_target isabsuri urijoin self d). fold (site_id schema_id i).
  set (uri := resolved_target isabsuri urijoin self d).
  set (sid := site_id schema_id i).
  destruct (dict_get uri world) as [fkDefs |] eqn:Hget.
  - simpl. destruct (dict_get sid fkDefs) as [fkDef |] eqn:Hsid; simpl; [done |].
    by rewrite dict_set_set.
  - change (dict_get sid []) with (@None FKDef). cbv beta iota zeta.
    by rewrite !dict_set_set.
Qed.

Lemma set_add_present (x : FKVals) (s : list FKVals) :
  x ∈ s → set_add x s = s.
Proof. intros. unfold set_add. by rewrite decide_True. Qed.

Lemma set_add_absent (x : FKVals) (s : list FKVals) :
  x ∉ s → set_add x s = s ++ [x].
Proof. intros. unfold set_add. by rewrite decide_False. Qed.

Lemma set_add_elem (x : FKVals) (s : list FKVals) : x ∈ set_add x s.
Proof.
  unfold set_add. case_decide; [done |].
  apply elem_of_app. right. left.
Qed.

Lemma set_add_NoDup (x : FKVals) (s : list FKVals) :
  NoDup s → NoDup (set_add x s).
Proof.
  intros Hnd. unfold set_add. case_decide; [done |].
  apply NoDup_app. split; [done |]. split; [| apply NoDup_singleton].
  intros y Hy ->%list_elem_of_singleton. done.
Qed.

(** C8, as the code has it. [validate] yields no error, never fails, and
    touches nothing of the engine but the registry. It treats the items of
    the array one after the other (none for an empty array). For an item,
    the addressed declaration is the one registered under the resolved
    target and the site id, or else a declaration synthesized from the item
    and registered there; the step leaves that declaration with the
    gathered occurrence added to its occurrence set, and changes no other
    entry. The occurrence pairs the extracted values with the current
    document; adding an occurrence that is already present changes nothing,
    a new one goes in once. *)
Theorem validate_gathers_one_occurrence_per_item
    (self : AbstractRefKey) (fk_defs : list FKDecl) (value : JSON)
    (schema_id : N) :
  let after := validate isabsuri urijoin GetKeyValues self fk_defs value schema_id in
  after.1 = []
  ∧ FKWorld after.2
    = foldl (validate_decl isabsuri urijoin GetKeyValues self schema_id value)
            (FKWorld self) (enumerate fk_defs)
  ∧ schemaURI after.2 = schemaURI self
  ∧ jsonSchemaSource after.2 = jsonSchemaSource self
  ∧ currentJSONFile after.2 = currentJSONFile self
  ∧ joinClass after.2 = joinClass self
  ∧ ∀ (world : dict (dict FKDef)) (i : nat) (d : FKDecl),
      let step :=
        validate_decl isabsuri urijoin GetKeyValues self schema_id value
                      world (i, d) in
      let target := resolved_target isabsuri urijoin self d in
      let fkDef := addressed_FKDef self schema_id world i d in
      let occ := gathered_occurrence self schema_id world value i d in
      let occs := FKLoc_values (FKDef_fkLoc fkDef) in
      world_get target (site_id schema_id i) step
      = Some (FKDef_with_values (set_add occ occs) fkDef)
      ∧ (∀ uri sid, ¬ (uri = target ∧ sid = site_id schema_id i) →
           world_get uri sid step = world_get uri sid world)
      ∧ occ = mkFKVals (extracted_values fkDef value) (currentJSONFile self)
      ∧ (occ ∈ occs → set_add occ occs = occs)
      ∧ (occ ∉ occs → set_add occ occs = occs ++ [occ]).
Proof.
  cbv zeta. split; [by destruct fk_defs |].
  split; [by destruct fk_defs |].
  do 4 (split; [by destruct fk_defs |]).
  intros world i d. rewrite validate_decl_eq.
  split; [| split; [| split; [done | split]]].
  - rewrite world_get_set. by rewrite decide_True.
  - intros uri sid Hne. rewrite world_get_set. by rewrite decide_False.
  - apply set_add_present.
  - apply set_add_absent.
Qed.

End GatheringFacts.

(** ** The second pass: accumulation *)

(** Every checking loop only adds documents to the two sets and appends
    errors to the list: what one item contributes does not depend on what
    was accumulated before. *)
Definition acc_empty : SecondPassAcc := (∅, ∅, []).

Definition acc_app (a b : SecondPassAcc) : SecondPassAcc :=
  (a.1.1 ∪ b.1.1, a.1.2 ∪ b.1.2, a.2 ++ b.2).

Definition appends {B} (f : SecondPassAcc → B → SecondPassAcc) : Prop :=
  ∀ acc x, f acc x = acc_app acc (f acc_empty x).

Lemma acc_eq (a b : SecondPassAcc) :
  a.1.1 = b.1.1 → a.1.2 = b.1.2 → a.2 = b.2 → a = b.
Proof. destruct a as [[? ?] ?], b as [[? ?] ?]; simpl. by intros -> -> ->. Qed.

Lemma acc_app_assoc a b c : acc_app (acc_app a b) c = acc_app a (acc_app b c).
Proof.
  apply acc_eq; simpl; [set_solver | set_solver | by rewrite app_assoc].
Qed.

Lemma acc_app_empty_r a : acc_app a acc_empty = a.
Proof.
  apply acc_eq; simpl; [set_solver | set_solver | by rewrite app_nil_r].
Qed.

Lemma acc_app_empty_l a : acc_app acc_empty a = a.
Proof. apply acc_eq; simpl; [set_solver | set_solver | done]. Qed.

Lemma foldl_appends {B} (f : SecondPassAcc → B → SecondPassAcc) :
  appends f → ∀ l acc, foldl f acc l = acc_app acc (foldl f acc_empty l).
Proof.
  intros Hf l. induction l as [| x l IH]; intros acc.
  - by rewrite acc_app_empty_r.
  - rewrite !foldl_cons, IH, (IH (f acc_empty x)), Hf, acc_app_assoc. done.
Qed.

Lemma appends_foldl {B C} (f : C → SecondPassAcc → B → SecondPassAcc)
    (g : C → list B) :
  (∀ c, appends (f c)) → appends (λ acc c, foldl (f c) acc (g c)).
Proof. intros Hf acc c. by apply foldl_appends. Qed.

(** The contribution of the item at position [j] of a loop sits between
    what the items before it and the items after it contribute. *)
Lemma foldl_appends_lookup {B} (f : SecondPassAcc → B → SecondPassAcc)
    (l : list B) (j : nat) (x : B) :
  appends f → l !! j = Some x →
  foldl f acc_empty l
  = acc_app (foldl f acc_empty (take j l))
            (acc_app (f acc_empty x) (foldl f acc_empty (drop (S j) l))).
Proof.
  intros Hf Hj.
  rewrite <- (take_drop_middle l j x Hj) at 1.
  rewrite foldl_app, foldl_cons.
  rewrite (foldl_appends f Hf (drop (S j) l)), (Hf (foldl _ _ _)).
  by rewrite acc_app_assoc.
Qed.

(** ** The second pass: what each loop contributes *)

Lemma foldl_check_strings
    (f : gset string * list SecondPassErrorDict → JSON
         → gset string * list SecondPassErrorDict)
    (w : string) (m : JSON → bool) (E : JSON → SecondPassErrorDict) :
  (∀ Fw es s,
     f (Fw, es) s = if m s then (Fw, es) else ({[w]} ∪ Fw, es ++ [E s])) →
  ∀ l Fw es,
    foldl f (Fw, es) l
    = (Fw ∪ (if decide (filter (λ s, m s = false) l = []) then ∅ else {[w]}),
       es ++ (E <$> filter (λ s, m s = false) l)).
Proof.
  intros Hf l. induction l as [| s l IH]; intros Fw es.
  - rewrite filter_nil. rewrite decide_True by done.
    rewrite fmap_nil, app_nil_r. by rewrite (right_id_L ∅ (∪)).
  - rewrite foldl_cons, Hf, filter_cons. destruct (m s) eqn:Hm.
    + rewrite (decide_False (P := true = false)) by done. apply IH.
    + rewrite (decide_True (P := false = false)) by done. rewrite IH.
      rewrite (decide_False (P := _ :: _ = [])) by done.
      rewrite fmap_cons, <- app_assoc. f_equal.
      case_decide; set_solver.
Qed.

Section SecondPassFacts.
Variable IndexedValues : Type.
Variable iv_len : IndexedValues → nat.
Variable iv_mem : JSON → IndexedValues → bool.
Variable GenKeyStrings : list (list JSON) → list string.
Variable py_str : JSON → string.

(** The canonical form of an occurrence, in the words of the design. With
    scope limiting, the document is prepended as a leading member and the
    composite rendering is used. Without it, exactly one member with exactly
    one value of an allowed primitive type stands for itself; in every
    other case the composite rendering is used. *)
Definition canonical_form (limit_scope : bool) (fkVals : FKVals) : list JSON :=
  if limit_scope then
    JStr <$> GenKeyStrings ([JStr (FKVals_where fkVals)] :: FKVals_values fkVals)
  else
    match FKVals_values fkVals with
    | [[v]] =>
        if isinstance_ALLOWED_ATOMIC_VALUE_TYPES v then [v]
        else JStr <$> GenKeyStrings (FKVals_values fkVals)
    | _ => JStr <$> GenKeyStrings (FKVals_values fkVals)
    end.

(** A canonical value is matched when some list of the comparison set
    holds it. *)
Definition matched (checkValuesList : list IndexedValues) (s : JSON) : bool :=
  existsb (iv_mem s) checkValuesList.

Definition unmatched_forms (checkValuesList : list IndexedValues)
    (limit_scope : bool) (fkVals : FKVals) : list JSON :=
  filter (λ s, matched checkValuesList s = false)
         (canonical_form limit_scope fkVals).

(** How a [stale_fk] error names the key the declaration targets. *)
Definition target_key_description (fkDef : FKDef) : string :=
  match FKDef_refers_to fkDef with
  | None => "any primary key"
  | Some name => "primary key " +:+ name
  end.

Definition unmatching_error (refSchemaURI : string) (fkDef : FKDef)
    (fkVals : FKVals) (s : JSON) : SecondPassErrorDict :=
  mkSecondPassError "stale_fk"
    ("Unmatching FK (" +:+ py_str s +:+ ") in " +:+ FKVals_where fkVals
     +:+ " to schema " +:+ refSchemaURI +:+ " ("
     +:+ target_key_description fkDef +:+ ")")
    (FKVals_where fkVals) (FKLoc_path (FKDef_fkLoc fkDef)).

Definition unmatchable_error (refSchemaURI : string) (fkDef : FKDef)
    (refers_to : string) (fkVals : FKVals) (s : JSON) : SecondPassErrorDict :=
  mkSecondPassError "stale_fk"
    ("Unmatchable FK (" +:+ py_str s +:+ ") in " +:+ FKVals_where fkVals
     +:+ " to schema " +:+ refSchemaURI
     +:+ " (key " +:+ refers_to +:+ " not found)")
    (FKVals_where fkVals) (FKLoc_path (FKDef_fkLoc fkDef)).

(** What one occurrence contributes when it is checked against a
    comparison set: its document is checked; it fails when some canonical
    form is unmatched, with one error for each of them. *)
Definition checked_occurrence (refSchemaURI : string) (fkDef : FKDef)
    (checkValuesList : list IndexedValues) (limit_scope : bool)
    (fkVals : FKVals) : SecondPassAcc :=
  ({[FKVals_where fkVals]},
   if decide (unmatched_forms checkValuesList limit_scope fkVals = [])
   then ∅ else {[FKVals_where fkVals]},
   unmatching_error refSchemaURI fkDef fkVals
     <$> unmatched_forms checkValuesList limit_scope fkVals).

(** What one occurrence contributes when the named key does not exist. *)
Definition unmatchable_occurrence (refSchemaURI : string) (fkDef : FKDef)
    (refers_to : string) (fkVals : FKVals) : SecondPassAcc :=
  ({[FKVals_where fkVals]}, {[FKVals_where fkVals]},
   unmatchable_error refSchemaURI fkDef refers_to fkVals
     <$> canonical_form false fkVals).

Lemma theValues_unscoped (obtainedValues : list (list JSON)) (w : string) :
  (if bool_decide (length obtainedValues = 1)
      && bool_decide (length (obtainedValues !!! 0) = 1)
      && isinstance_ALLOWED_ATOMIC_VALUE_TYPES ((obtainedValues !!! 0) !!! 0)
   then [(obtainedValues !!! 0) !!! 0]
   else JStr <$> GenKeyStrings obtainedValues)
  = canonical_form false (mkFKVals obtainedValues w).
Proof.
  unfold canonical_form; simpl.
  destruct obtainedValues as [| [| v [| v' l]] [| l' ls]]; try done.
Qed.

Lemma check_fkVals_eq refSchemaURI fkDef checkValuesList limit_scope acc fkVals :
  check_fkVals IndexedValues iv_mem GenKeyStrings py_str refSchemaURI fkDef
    (FKLoc_path (FKDef_fkLoc fkDef)) checkValuesList limit_scope acc fkVals
  = acc_app acc
      (checked_occurrence refSchemaURI fkDef checkValuesList limit_scope fkVals).
Proof.
  destruct acc as [[W F] errs], fkVals as [ov w].
  unfold check_fkVals, checked_occurrence, unmatched_forms, acc_app.
  cbn [FKVals_values FKVals_where fst snd].
  assert (∀ l : list JSON,
    (let '(uniqueFailedWhere, errors) :=
       foldl (λ '(uniqueFailedWhere, errors) fkString,
                let found := existsb (iv_mem fkString) checkValuesList in
                if found then (uniqueFailedWhere, errors)
                else
                  ({[w]} ∪ uniqueFailedWhere,
                   errors ++
                   [ mkSecondPassError "stale_fk"
                       ("Unmatching FK (" +:+ py_str fkString +:+ ") in "
                        +:+ w +:+ " to schema " +:+ refSchemaURI +:+ " ("
                        +:+ match FKDef_refers_to fkDef with
                            | None => "any primary key"
                            | Some name => "primary key " +:+ name
                            end +:+ ")")
                       w (FKLoc_path (FKDef_fkLoc fkDef)) ]))
             (F, errs) l in
     ({[w]} ∪ W, uniqueFailedWhere, errors))
    = (W ∪ {[w]},
       F ∪ (if decide (filter (λ s, matched checkValuesList s = false) l = [])
            then ∅ else {[w]}),
       errs ++ (unmatching_error refSchemaURI fkDef (mkFKVals ov w)
                  <$> filter (λ s, matched checkValuesList s = false) l)))
    as Hloop.
  { intros l.
    rewrite (foldl_check_strings _ w (matched checkValuesList)
               (unmatching_error refSchemaURI fkDef (mkFKVals ov w))).
    - f_equal. f_equal. set_solver.
    - intros F' errs' s. unfold matched. by destruct (existsb _ _). }
  destruct limit_scope.
  - cbv beta iota zeta. apply Hloop.
  - cbv beta iota zeta. rewrite (theValues_unscoped ov w). apply Hloop.
Qed.

Lemma missing_key_fkVals_eq refSchemaURI fkDef refers_to acc fkVals :
  missing_key_fkVals GenKeyStrings py_str refSchemaURI fkDef
    (FKLoc_path (FKDef_fkLoc fkDef)) refers_to acc fkVals
  = acc_app acc (unmatchable_occurrence refSchemaURI fkDef refers_to fkVals).
Proof.
  destruct acc as [[W F] errs], fkVals as [ov w].
  unfold missing_key_fkVals, unmatchable_occurrence, acc_app.
  cbn [FKVals_values FKVals_where fst snd]. cbv beta iota zeta.
  rewrite (theValues_unscoped ov w).
  generalize (canonical_form false (mkFKVals ov w)). intros l.
  f_equal; [f_equal; set_solver |].
  revert errs. induction l as [| s l IH]; intros errs.
  - by rewrite app_nil_r.
  - rewrite foldl_cons, IH, fmap_cons, <- app_assoc. done.
Qed.

(** The documents of the occurrences gathered under one declaration, and
    under the declarations of one referenced schema. *)
Definition documents_of (fkDef : FKDef) : gset string :=
  list_to_set (FKVals_where <$> FKLoc_values (FKDef_fkLoc fkDef)).

Definition documents_under (fkDefH : dict FKDef) : gset string :=
  list_to_set (fkDefH ≫= λ item,
                 FKVals_where <$> FKLoc_values (FKDef_fkLoc item.2)).

(** The error of one occurrence whose referenced schema has no aggregate. *)
Definition dangling_error (cls : RefKeyClass) (self : AbstractRefKey)
    (refSchemaURI : string) (fkDef : FKDef) (fkVals : FKVals)
  : SecondPassErrorDict :=
  mkSecondPassError _danglingErrorReason
    ("No available documents from " +:+ refSchemaURI
     +:+ " schema, required by " +:+ schemaURI self)
    (FKVals_where fkVals) (FKLoc_path (FKDef_fkLoc fkDef)).

(** One error per occurrence of every declaration under the schema, in the
    order of the declarations and of their occurrences. *)
Definition dangling_errors (cls : RefKeyClass) (self : AbstractRefKey)
    (refSchemaURI : string) (fkDefH : dict FKDef) : list SecondPassErrorDict :=
  fkDefH ≫= λ item,
    dangling_error cls self refSchemaURI item.2
      <$> FKLoc_values (FKDef_fkLoc item.2).

Lemma dangling_fkDef_eq (cls : RefKeyClass) self refSchemaURI acc item :
  dangling_fkDef self refSchemaURI acc item
  = acc_app acc
      (documents_of item.2, documents_of item.2,
       dangling_error cls self refSchemaURI item.2
         <$> FKLoc_values (FKDef_fkLoc item.2)).
Proof.
  destruct item as [sid fkDef]. unfold dangling_fkDef, documents_of; simpl.
  generalize (FKLoc_values (FKDef_fkLoc fkDef)). intros vs. revert acc.
  induction vs as [| v vs IH]; intros acc.
  - symmetry. apply acc_app_empty_r.
  - rewrite foldl_cons, IH. destruct acc as [[W F] errs].
    unfold dangling_fkVals. apply acc_eq; simpl.
    + set_solver.
    + set_solver.
    + by rewrite <- app_assoc.
Qed.

Lemma dangling_fkDefs_eq (cls : RefKeyClass) self refSchemaURI acc fkDefH :
  foldl (dangling_fkDef self refSchemaURI) acc fkDefH
  = acc_app acc
      (documents_under fkDefH, documents_under fkDefH,
       dangling_errors cls self refSchemaURI fkDefH).
Proof.
  unfold documents_under, dangling_errors. revert acc.
  induction fkDefH as [| item fkDefH IH]; intros acc.
  - symmetry. apply acc_app_empty_r.
  - rewrite foldl_cons, IH, dangling_fkDef_eq, acc_app_assoc.
    f_equal. unfold documents_of. rewrite !bind_cons.
    apply acc_eq; simpl; by rewrite ?list_to_set_app_L.
Qed.

(** The comparison set of a declaration and the scope flag that goes with
    it, in the words of the design: the value list and the flag of the
    named key when the declaration names one that exists; every value list
    of the aggregate and the flag of the aggregate when it names none. *)
Definition comparison_set (heap : PKKeysDefaults IndexedValues)
    (checkValuesKeys : PKKeys) (fkDef : FKDef)
  : option (list IndexedValues * bool) :=
  match FKDef_refers_to fkDef with
  | Some name =>
      match PKKeys_by_name IndexedValues heap checkValuesKeys !! name with
      | Some uDef =>
          Some ([IndexDef_values IndexedValues uDef],
                IndexDef_limit_scope IndexedValues uDef)
      | None => None
      end
  | None =>
      Some (PKKeys_vals IndexedValues heap checkValuesKeys,
            PKKeys_limit_scope checkValuesKeys)
  end.

(** The contributions of a list of occurrences, one after the other. *)
Definition acc_concat (l : list SecondPassAcc) : SecondPassAcc :=
  foldr acc_app acc_empty l.

Lemma foldl_contributions {B} (f : SecondPassAcc → B → SecondPassAcc)
    (C : B → SecondPassAcc) (l : list B) (acc : SecondPassAcc) :
  (∀ acc x, f acc x = acc_app acc (C x)) →
  foldl f acc l = acc_app acc (acc_concat (C <$> l)).
Proof.
  intros Hf. revert acc. induction l as [| x l IH]; intros acc.
  - symmetry. apply acc_app_empty_r.
  - rewrite foldl_cons, IH, Hf, acc_app_assoc. done.
Qed.

Lemma check_fkDef_eq heap refSchemaURI checkValuesKeys acc sid fkDef :
  check_fkDef IndexedValues iv_mem GenKeyStrings py_str heap refSchemaURI
              checkValuesKeys acc (sid, fkDef)
  = acc_app acc
      (acc_concat
         (match comparison_set heap checkValuesKeys fkDef with
          | Some (checkValuesList, limit_scope) =>
              checked_occurrence refSchemaURI fkDef checkValuesList limit_scope
          | None =>
              unmatchable_occurrence refSchemaURI fkDef
                (default "" (FKDef_refers_to fkDef))
          end <$> FKLoc_values (FKDef_fkLoc fkDef))).
Proof.
  unfold check_fkDef, comparison_set.
  destruct (FKDef_refers_to fkDef) as [name |]; simpl.
  - destruct (PKKeys_by_name IndexedValues heap checkValuesKeys !! name)
      as [uDef |].
    + apply foldl_contributions. intros. apply check_fkVals_eq.
    + apply foldl_contributions. intros. apply missing_key_fkVals_eq.
  - apply foldl_contributions. intros. apply check_fkVals_eq.
Qed.

Lemma check_fkDef_appends heap refSchemaURI checkValuesKeys :
  appends (check_fkDef IndexedValues iv_mem GenKeyStrings py_str heap
                       refSchemaURI checkValuesKeys).
Proof.
  intros acc [sid fkDef]. rewrite !check_fkDef_eq.
  by rewrite acc_app_empty_l.
Qed.

Lemma check_refSchema_appends (cls : RefKeyClass) self heap pkContextsHash :
  appends (check_refSchema IndexedValues iv_mem GenKeyStrings py_str
                           self heap pkContextsHash).
Proof.
  intros acc [refSchemaURI fkDefH]. unfold check_refSchema.
  destruct (dict_get refSchemaURI pkContextsHash) as [checkValuesKeys |].
  - apply foldl_appends, check_fkDef_appends.
  - rewrite !(dangling_fkDefs_eq cls). by rewrite acc_app_empty_l.
Qed.

(** The aggregates and the shared defaults after Step A. *)
Definition consolidated (self : AbstractRefKey)
    (heap : PKKeysDefaults IndexedValues)
    (contexts : dict (list (CheckContext IndexedValues)))
  : PKKeysDefaults IndexedValues * dict PKKeys :=
  foldl (consolidate_class IndexedValues iv_len self) (heap, []) contexts.

Lemma doSecondPass_eq (cls : RefKeyClass) self heap contexts :
  doSecondPass IndexedValues iv_len iv_mem GenKeyStrings py_str
               self heap contexts
  = (foldl (check_refSchema IndexedValues iv_mem GenKeyStrings py_str self
              (consolidated self heap contexts).1
              (consolidated self heap contexts).2)
           acc_empty (FKWorld self),
     (consolidated self heap contexts).1).
Proof.
  unfold doSecondPass, consolidated.
  by destruct (foldl _ _ contexts) as [heap' pkContextsHash].
Qed.

(** C2. Let a referenced schema with registered foreign keys have no
    aggregate after Step A. The result of [doSecondPass] of a [ForeignKey]
    is then what the schemas before it contribute, followed by exactly one
    [dangling_fk] error for each occurrence of each declaration under that
    schema, with the document of the occurrence as file and the path of the
    declaration as path, followed by what the schemas after it contribute;
    none of these errors is a [stale_fk] error, and the documents of these
    occurrences are in the checked set and in the failed set. *)
Theorem dangling_when_no_aggregate
    (self : AbstractRefKey) (heap : PKKeysDefaults IndexedValues)
    (contexts : dict (list (CheckContext IndexedValues)))
    (j : nat) (refSchemaURI : string) (fkDefH : dict FKDef) :
  let pkContextsHash := (consolidated self heap contexts).2 in
  let loop :=
    foldl (check_refSchema (cls := ForeignKey) IndexedValues iv_mem
             GenKeyStrings py_str self (consolidated self heap contexts).1
             pkContextsHash) acc_empty in
  let result :=
    (doSecondPass (cls := ForeignKey) IndexedValues iv_len iv_mem
                  GenKeyStrings py_str self heap contexts).1 in
  FKWorld self !! j = Some (refSchemaURI, fkDefH) →
  dict_get refSchemaURI pkContextsHash = None →
  result
  = acc_app (loop (take j (FKWorld self)))
      (acc_app (documents_under fkDefH, documents_under fkDefH,
                dangling_errors ForeignKey self refSchemaURI fkDefH)
               (loop (drop (S j) (FKWorld self))))
  ∧ documents_under fkDefH ⊆ result.1.1
  ∧ documents_under fkDefH ⊆ result.1.2
  ∧ Forall (λ e, reason e = "dangling_fk" ∧ reason e ≠ "stale_fk")
           (dangling_errors ForeignKey self refSchemaURI fkDefH)
  ∧ dangling_errors ForeignKey self refSchemaURI fkDefH
    = fkDefH ≫= λ item,
        (λ fkVals,
           mkSecondPassError "dangling_fk"
             ("No available documents from " +:+ refSchemaURI
              +:+ " schema, required by " +:+ schemaURI self)
             (FKVals_where fkVals) (FKLoc_path (FKDef_fkLoc item.2)))
        <$> FKLoc_values (FKDef_fkLoc item.2).
Proof.
  intros pkContextsHash loop result Hj Hnone.
  assert (result
          = acc_app (loop (take j (FKWorld self)))
              (acc_app (documents_under fkDefH, documents_under fkDefH,
                        dangling_errors ForeignKey self refSchemaURI fkDefH)
                       (loop (drop (S j) (FKWorld self))))) as Hres.
  { unfold result. rewrite (doSecondPass_eq ForeignKey). simpl.
    rewrite (foldl_appends_lookup _ _ j (refSchemaURI, fkDefH));
      [| apply (check_refSchema_appends ForeignKey) | done].
    unfold loop. do 2 f_equal.
    unfold check_refSchema. fold pkContextsHash. rewrite Hnone.
    rewrite (dangling_fkDefs_eq ForeignKey). apply acc_app_empty_l. }
  split; [exact Hres |].
  split; [rewrite Hres; unfold acc_app; simpl; set_solver |].
  split; [rewrite Hres; unfold acc_app; simpl; set_solver |].
  split; [| done].
  unfold dangling_errors. apply Forall_bind, Forall_forall. intros item _.
  apply Forall_fmap, Forall_forall. intros fkVals _. by split.
Qed.


Lemma matched_false checkValuesList s :
  matched checkValuesList s = false
  ↔ ∀ checkValues, checkValues ∈ checkValuesList → iv_mem s checkValues = false.
Proof.
  unfold matched. induction checkValuesList as [| cv cvl IH]; simpl.
  - split; [intros _ ? ?%elem_of_nil; done | done].
  - rewrite orb_false_iff, IH. split.
    + intros [Hcv Hcvl] x [-> | Hx]%elem_of_cons; auto.
    + intros Hall. split; [apply Hall; left |].
      intros x Hx. apply Hall. by right.
Qed.

(** C3. An occurrence checked against a comparison set is canonicalized by
    the rule of the design: with the scope flag on, the document is
    prepended as a leading member and the composite rendering is used;
    with the flag off, exactly one member with exactly one value of an
    allowed primitive type stands for itself, and every other shape takes
    the composite rendering. The check adds the document to the checked
    set and emits one [stale_fk] error, with the document as file and the
    path of the declaration, for each canonical form that no list of the
    comparison set holds, in order; the document joins the failed set
    exactly when there is such a form. The comparison set is the one the
    declaration selects: the named key, or every list of the aggregate. *)
Theorem canonical_forms_checked
    (heap : PKKeysDefaults IndexedValues) (refSchemaURI : string)
    (checkValuesKeys : PKKeys) (sid : string) (fkDef : FKDef)
    (checkValuesList : list IndexedValues) (limit_scope : bool)
    (acc : SecondPassAcc) (fkVals : FKVals) :
  let check :=
    check_fkVals IndexedValues iv_mem GenKeyStrings py_str refSchemaURI fkDef
      (FKLoc_path (FKDef_fkLoc fkDef)) checkValuesList limit_scope in
  let forms := canonical_form limit_scope fkVals in
  let unmatched :=
    filter (λ s, existsb (iv_mem s) checkValuesList = false) forms in
  canonical_form true fkVals
  = JStr <$> GenKeyStrings
               ([JStr (FKVals_where fkVals)] :: FKVals_values fkVals)
  ∧ (∀ v, FKVals_values fkVals = [[v]] →
          isinstance_ALLOWED_ATOMIC_VALUE_TYPES v = true →
          canonical_form false fkVals = [v])
  ∧ ((∀ v, FKVals_values fkVals = [[v]] →
           isinstance_ALLOWED_ATOMIC_VALUE_TYPES v = false) →
     canonical_form false fkVals = JStr <$> GenKeyStrings (FKVals_values fkVals))
  ∧ check acc fkVals
    = acc_app acc
        ({[FKVals_where fkVals]},
         if decide (unmatched = []) then ∅ else {[FKVals_where fkVals]},
         (λ s, mkSecondPassError "stale_fk"
                 ("Unmatching FK (" +:+ py_str s +:+ ") in "
                  +:+ FKVals_where fkVals +:+ " to schema " +:+ refSchemaURI
                  +:+ " (" +:+ target_key_description fkDef +:+ ")")
                 (FKVals_where fkVals) (FKLoc_path (FKDef_fkLoc fkDef)))
         <$> unmatched)
  ∧ (FKVals_where fkVals ∈ (check acc_empty fkVals).1.2
     ↔ ∃ s, s ∈ forms
            ∧ ∀ checkValues, checkValues ∈ checkValuesList →
                             iv_mem s checkValues = false)
  ∧ match comparison_set heap checkValuesKeys fkDef with
    | Some (cvl, flag) =>
        check_fkDef IndexedValues iv_mem GenKeyStrings py_str heap
                    refSchemaURI checkValuesKeys acc (sid, fkDef)
        = foldl (check_fkVals IndexedValues iv_mem GenKeyStrings py_str
                   refSchemaURI fkDef (FKLoc_path (FKDef_fkLoc fkDef))
                   cvl flag)
                acc (FKLoc_values (FKDef_fkLoc fkDef))
    | None => True
    end.
Proof.
  intros check forms unmatched.
  split; [done |].
  split.
  { intros v Hv Hatomic. unfold canonical_form. by rewrite Hv, Hatomic. }
  split.
  { intros Hshape. unfold canonical_form.
    destruct (FKVals_values fkVals) as [| [| v [| v' l]] [| l' ls]]; try done.
    by rewrite (Hshape v eq_refl). }
  split; [apply check_fkVals_eq |].
  split.
  - unfold check. rewrite check_fkVals_eq, acc_app_empty_l.
    unfold checked_occurrence, unmatched_forms. fold forms. simpl.
    case_decide as Hnil.
    + split; [by intros ?%not_elem_of_empty |].
      intros (s & Hs & Hno). apply matched_false in Hno.
      assert (s ∈ filter (λ s, matched checkValuesList s = false) forms)
        as Hin by (by apply list_elem_of_filter).
      rewrite Hnil in Hin. by apply elem_of_nil in Hin.
    + split; [| intros _; by apply elem_of_singleton].
      intros _.
      destruct (filter (λ s, matched checkValuesList s = false) forms)
        as [| s rest] eqn:Hf; [done |].
      assert (s ∈ filter (λ s, matched checkValuesList s = false) forms)
        as Hin by (rewrite Hf; left).
      apply list_elem_of_filter in Hin as [Hm Hs].
      exists s. split; [done |]. by apply matched_false.
  - unfold comparison_set, check_fkDef.
    destruct (FKDef_refers_to fkDef) as [name |]; [| done].
    by destruct (PKKeys_by_name IndexedValues heap checkValuesKeys !! name).
Qed.


(** *** Step A, one declaration after the other *)

(** The primary-key declarations Step A walks, in order: those of the
    contexts filed under the join class. *)
Definition pk_declarations (self : AbstractRefKey)
    (contexts : dict (list (CheckContext IndexedValues)))
  : list (IndexDef IndexedValues) :=
  contexts ≫= λ item,
    if decide (item.1 = joinClass self) then
      item.2 ≫= λ pkContext,
        dict_values (index_world IndexedValues (context IndexedValues pkContext))
    else [].

Lemma consolidated_flat self heap contexts :
  consolidated self heap contexts
  = foldl (consolidate_pkDef IndexedValues iv_len) (heap, [])
          (pk_declarations self contexts).
Proof.
  unfold consolidated, pk_declarations. generalize (heap, @nil (string * PKKeys)).
  induction contexts as [| [className pkContexts] contexts IH]; intros st;
    [done |].
  rewrite foldl_cons, bind_cons, foldl_app, IH. f_equal.
  unfold consolidate_class; simpl. case_decide; [| done].
  rewrite foldl_bind. done.
Qed.

Definition has_values (pkDef : IndexDef IndexedValues) : Prop :=
  0 < iv_len (IndexDef_values IndexedValues pkDef).

#[global] Instance has_values_dec pkDef : Decision (has_values pkDef).
Proof. unfold has_values. apply _. Defined.

Definition owner (pkDef : IndexDef IndexedValues) : string :=
  IndexLoc_schemaURI (IndexDef_indexLoc IndexedValues pkDef).

(** The aggregates after one declaration: a declaration with recorded
    values creates the aggregate of its owning schema, with its own flag,
    unless the schema has one. *)
Definition hash_step (pkContextsHash : dict PKKeys)
    (pkDef : IndexDef IndexedValues) : dict PKKeys :=
  if decide (has_values pkDef) then
    match dict_get (owner pkDef) pkContextsHash with
    | None =>
        dict_set (owner pkDef)
                 (mkPKKeys (owner pkDef) (IndexDef_limit_scope IndexedValues pkDef))
                 pkContextsHash
    | Some _ => pkContextsHash
    end
  else pkContextsHash.

(** A name is filed unless it is taken: the first declaration wins. *)
Definition file_name (by_name : gmap string (IndexDef IndexedValues))
    (pkDef : IndexDef IndexedValues) : gmap string (IndexDef IndexedValues) :=
  if decide (is_Some (by_name !! IndexDef_name IndexedValues pkDef)) then by_name
  else <[IndexDef_name IndexedValues pkDef := pkDef]> by_name.

(** The declarations whose name Step A files: those that meet an aggregate
    of their owning schema. *)
Fixpoint filed (pkContextsHash : dict PKKeys)
    (pkDefs : list (IndexDef IndexedValues)) : list (IndexDef IndexedValues) :=
  match pkDefs with
  | [] => []
  | pkDef :: rest =>
      (if decide (is_Some (dict_get (owner pkDef) (hash_step pkContextsHash pkDef)))
       then [pkDef] else [])
      ++ filed (hash_step pkContextsHash pkDef) rest
  end.

Lemma consolidate_pkDef_eq heap pkContextsHash pkDef :
  consolidate_pkDef IndexedValues iv_len (heap, pkContextsHash) pkDef
  = (mkPKKeysDefaults IndexedValues
       (default_vals IndexedValues heap
        ++ if decide (has_values pkDef)
           then [IndexDef_values IndexedValues pkDef] else [])
       (foldl file_name (default_by_name IndexedValues heap)
              (filed pkContextsHash [pkDef])),
     hash_step pkContextsHash pkDef).
Proof.
  unfold consolidate_pkDef, filed, file_name, PKKeys_by_name,
    PKKeys_by_name_set, PKKeys_vals_append.
  unfold hash_step, has_values, owner.
  destruct heap as [vals by_name]; simpl.
  destruct (decide (0 < iv_len (IndexDef_values IndexedValues pkDef))).
  - destruct (dict_get _ pkContextsHash) as [pkKeys |] eqn:Hget; simpl.
    + rewrite Hget.
      rewrite (decide_True (P := is_Some (Some pkKeys))) by done.
      simpl. by case_decide.
    + rewrite dict_get_set_eq.
      rewrite (decide_True (P := is_Some (Some _))) by done.
      simpl. by case_decide.
  - rewrite app_nil_r.
    destruct (dict_get _ pkContextsHash) as [pkKeys |] eqn:Hget; simpl.
    + by case_decide.
    + done.
Qed.

Lemma consolidate_pkDefs_eq pkDefs heap pkContextsHash :
  foldl (consolidate_pkDef IndexedValues iv_len) (heap, pkContextsHash) pkDefs
  = (mkPKKeysDefaults IndexedValues
       (default_vals IndexedValues heap
        ++ (IndexDef_values IndexedValues <$> filter has_values pkDefs))
       (foldl file_name (default_by_name IndexedValues heap)
              (filed pkContextsHash pkDefs)),
     foldl hash_step pkContextsHash pkDefs).
Proof.
  revert heap pkContextsHash.
  induction pkDefs as [| pkDef pkDefs IH]; intros heap pkContextsHash.
  - destruct heap. simpl. by rewrite app_nil_r.
  - rewrite foldl_cons, consolidate_pkDef_eq, IH. simpl.
    rewrite filter_cons, app_nil_r, foldl_app, <- app_assoc.
    do 3 f_equal. by case_decide.
Qed.

Lemma file_name_mono by_name pkDef k :
  is_Some (by_name !! k) → is_Some (file_name by_name pkDef !! k).
Proof.
  intros Hk. unfold file_name. case_decide; [done |].
  destruct (decide (k = IndexDef_name IndexedValues pkDef)) as [-> |].
  - by rewrite lookup_insert_eq.
  - by rewrite lookup_insert_ne.
Qed.

Lemma file_names_mono pkDefs by_name k :
  is_Some (by_name !! k) → is_Some (foldl file_name by_name pkDefs !! k).
Proof.
  revert by_name. induction pkDefs as [| pkDef pkDefs IH]; intros by_name Hk;
    [done |].
  rewrite foldl_cons. by apply IH, file_name_mono.
Qed.

Lemma file_names_taken pkDefs by_name pkDef :
  pkDef ∈ pkDefs →
  is_Some (foldl file_name by_name pkDefs !! IndexDef_name IndexedValues pkDef).
Proof.
  revert by_name. induction pkDefs as [| pkDef' pkDefs IH]; intros by_name Hin.
  - by apply elem_of_nil in Hin.
  - rewrite foldl_cons. apply elem_of_cons in Hin as [-> | Hin]; [| by apply IH].
    apply file_names_mono. unfold file_name. case_decide; [done |].
    by rewrite lookup_insert_eq.
Qed.

Lemma file_names_fixed pkDefs by_name :
  (∀ pkDef, pkDef ∈ pkDefs →
            is_Some (by_name !! IndexDef_name IndexedValues pkDef)) →
  foldl file_name by_name pkDefs = by_name.
Proof.
  induction pkDefs as [| pkDef pkDefs IH]; intros Hall; [done |].
  rewrite foldl_cons. unfold file_name at 2.
  rewrite decide_True by (apply Hall; left).
  apply IH. intros d Hd. apply Hall. by right.
Qed.

(** Filing the same declarations a second time changes nothing. *)
Lemma file_names_idem pkDefs by_name :
  foldl file_name (foldl file_name by_name pkDefs) pkDefs
  = foldl file_name by_name pkDefs.
Proof. apply file_names_fixed. intros. by apply file_names_taken. Qed.

Lemma matched_app_subset (vals more : list IndexedValues) (s : JSON) :
  more ⊆ vals → matched (vals ++ more) s = matched vals s.
Proof.
  intros Hsub. unfold matched. rewrite existsb_app.
  destruct (existsb (iv_mem s) vals) eqn:Hv; [done |]. simpl.
  apply not_true_is_false. intros Hm.
  apply existsb_exists in Hm as (cv & Hin & Hcv).
  apply list_elem_of_In, Hsub in Hin.
  assert (existsb (iv_mem s) vals = true) as Hv'; [| congruence].
  apply existsb_exists. exists cv. split; [by apply list_elem_of_In | done].
Qed.

Lemma checked_occurrence_ext refSchemaURI fkDef vals vals' limit_scope fkVals :
  (∀ s, matched vals s = matched vals' s) →
  checked_occurrence refSchemaURI fkDef vals limit_scope fkVals
  = checked_occurrence refSchemaURI fkDef vals' limit_scope fkVals.
Proof.
  intros Hm. unfold checked_occurrence, unmatched_forms.
  rewrite (list_filter_iff _ (λ s, matched vals' s = false)); [done |].
  intros s. by rewrite Hm.
Qed.

(** The checks read the shared value lists through membership only, and
    the shared names through lookup only. *)
Lemma check_refSchema_ext (cls : RefKeyClass) self
    (heap heap' : PKKeysDefaults IndexedValues) pkContextsHash acc item :
  default_by_name IndexedValues heap = default_by_name IndexedValues heap' →
  (∀ s, matched (default_vals IndexedValues heap) s
        = matched (default_vals IndexedValues heap') s) →
  check_refSchema IndexedValues iv_mem GenKeyStrings py_str self heap
                  pkContextsHash acc item
  = check_refSchema IndexedValues iv_mem GenKeyStrings py_str self heap'
                    pkContextsHash acc item.
Proof.
  intros Hnames Hvals. destruct item as [refSchemaURI fkDefH].
  unfold check_refSchema.
  destruct (dict_get refSchemaURI pkContextsHash) as [checkValuesKeys |];
    [| done].
  apply foldl_ext. intros acc' [sid fkDef]. rewrite !check_fkDef_eq.
  do 2 f_equal. unfold comparison_set, PKKeys_by_name, PKKeys_vals.
  rewrite Hnames. destruct (FKDef_refers_to fkDef) as [name |]; [done |].
  apply list_fmap_ext. intros i fkVals _. by apply checked_occurrence_ext.
Qed.

(** C6. Calling [doSecondPass] a second time on the state the first call
    leaves, with the same contexts and nothing gathered, forgotten or
    cleaned in between, returns the same checked set, the same failed set
    and the same error list. *)
Theorem doSecondPass_idempotent (cls : RefKeyClass)
    (self : AbstractRefKey) (heap : PKKeysDefaults IndexedValues)
    (contexts : dict (list (CheckContext IndexedValues))) :
  let first :=
    doSecondPass IndexedValues iv_len iv_mem GenKeyStrings py_str
                 self heap contexts in
  let second :=
    doSecondPass IndexedValues iv_len iv_mem GenKeyStrings py_str
                 self first.2 contexts in
  second.1 = first.1.
Proof.
  cbv zeta. rewrite !(doSecondPass_eq cls). simpl.
  rewrite !consolidated_flat, !consolidate_pkDefs_eq. simpl.
  apply foldl_ext. intros acc item. apply check_refSchema_ext; simpl.
  - apply file_names_idem.
  - intros s. apply matched_app_subset.
    intros cv Hcv. apply elem_of_app. by right.
Qed.

End SecondPassFacts.

(** ** Declarations without a target schema *)

Section OwnSchema.
Variable isabsuri : string → bool.
Variable urijoin : string → string → string.
Variable GetKeyValues : JSON → list JSON → list (list JSON).
Variable IndexedValues : Type.
Variable iv_mem : JSON → IndexedValues → bool.
Variable GenKeyStrings : list (list JSON) → list string.
Variable py_str : JSON → string.
Context {cls : RefKeyClass}.

(** A declaration without [schema_id] is resolved to the URI of the
    declaring schema by bootstrap and by gathering alike: bootstrap
    registers it under that URI, with that URI as referenced schema, and
    gathering files its occurrence under that URI. *)
Lemma omitted_schema_id_resolves_to_own_schema
    (self : AbstractRefKey) (refSchemaCache : gset string) (loc : FeatureLoc)
    (errors : list BootstrapErrorDict) (world : dict (dict FKDef))
    (i : nat) (members : option JSON) (refers_to : option string)
    (value : JSON) (schema_id : N) :
  let d := mkFKDecl None members refers_to in
  let booted :=
    (bootstrap_decl isabsuri urijoin self refSchemaCache loc
                    (errors, world) (i, d)).2 in
  let gathered :=
    validate_decl isabsuri urijoin GetKeyValues self schema_id value
                  world (i, d) in
  (∃ fkDef,
     world_get (schemaURI self) (site_id (loc_context_id loc) i) booted
     = Some fkDef
     ∧ FKLoc_refSchemaURI (FKDef_fkLoc fkDef) = schemaURI self
     ∧ FKLoc_schemaURI (FKDef_fkLoc fkDef) = schemaURI self)
  ∧ (∃ fkDef,
       world_get (schemaURI self) (site_id schema_id i) gathered = Some fkDef
       ∧ gathered_occurrence isabsuri urijoin GetKeyValues self schema_id
                             world value i d
         ∈ FKLoc_values (FKDef_fkLoc fkDef)).
Proof.
  intros d booted gathered. split.
  - unfold booted. rewrite bootstrap_decl_eq. simpl.
    eexists. rewrite world_get_set. rewrite decide_True by done.
    split; [reflexivity | done].
  - unfold gathered. rewrite validate_decl_eq.
    eexists. rewrite world_get_set.
    change (resolved_target isabsuri urijoin self d) with (schemaURI self).
    rewrite decide_True by done. split; [reflexivity |].
    simpl. apply set_add_elem.
Qed.

End OwnSchema.

(** ** Step A: the flag of an aggregate *)

Section StepAFacts.
Variable IndexedValues : Type.
Variable iv_len : IndexedValues → nat.

Lemma hash_step_other pkContextsHash pkDef uri :
  owner IndexedValues pkDef ≠ uri →
  dict_get uri (hash_step IndexedValues iv_len pkContextsHash pkDef)
  = dict_get uri pkContextsHash.
Proof.
  intros Hne. unfold hash_step. case_decide; [| done].
  destruct (dict_get (owner IndexedValues pkDef) pkContextsHash); [done |].
  by rewrite dict_get_set_ne.
Qed.

Lemma hash_step_kept pkContextsHash pkDef uri pkKeys :
  dict_get uri pkContextsHash = Some pkKeys →
  dict_get uri (hash_step IndexedValues iv_len pkContextsHash pkDef)
  = Some pkKeys.
Proof.
  intros Hget. unfold hash_step. case_decide; [| done].
  destruct (dict_get (owner IndexedValues pkDef) pkContextsHash) eqn:Hown;
    [done |].
  rewrite dict_get_set_ne; [done |]. intros ->. congruence.
Qed.

(** Once a schema has its aggregate, no later declaration replaces it or
    alters its flag. *)
Lemma aggregate_kept pkDefs pkContextsHash uri pkKeys :
  dict_get uri pkContextsHash = Some pkKeys →
  dict_get uri (foldl (hash_step IndexedValues iv_len) pkContextsHash pkDefs)
  = Some pkKeys.
Proof.
  revert pkContextsHash.
  induction pkDefs as [| pkDef pkDefs IH]; intros pkContextsHash Hget;
    [done |].
  rewrite foldl_cons. by apply IH, hash_step_kept.
Qed.

(** The aggregate of a schema carries the flag of the first declaration
    owned by that schema that has recorded values; there is none when no
    such declaration exists. *)
Lemma aggregate_of_first_seen pkDefs pkContextsHash uri :
  dict_get uri pkContextsHash = None →
  dict_get uri (foldl (hash_step IndexedValues iv_len) pkContextsHash pkDefs)
  = (λ pkDef, mkPKKeys uri (IndexDef_limit_scope IndexedValues pkDef))
      <$> head (filter (λ pkDef, has_values IndexedValues iv_len pkDef
                                 ∧ owner IndexedValues pkDef = uri) pkDefs).
Proof.
  revert pkContextsHash.
  induction pkDefs as [| pkDef pkDefs IH]; intros pkContextsHash Hget;
    [done |].
  rewrite foldl_cons, filter_cons.
  destruct (decide (has_values IndexedValues iv_len pkDef
                    ∧ owner IndexedValues pkDef = uri)) as [[Hv <-] | Hno].
  - simpl. apply aggregate_kept. unfold hash_step.
    rewrite decide_True by done. rewrite Hget. apply dict_get_set_eq.
  - apply IH. unfold hash_step. case_decide as Hv; [| done].
    destruct (decide (owner IndexedValues pkDef = uri)) as [Heq | Hne];
      [tauto |].
    destruct (dict_get (owner IndexedValues pkDef) pkContextsHash); [done |].
    by rewrite dict_get_set_ne.
Qed.

End StepAFacts.

(** * Concrete runs *)

(** Stand-ins for the collaborators, to evaluate the model on inputs. *)
Definition demo_isabsuri (uri : string) : bool := String.prefix "http://" uri.

Definition demo_urijoin (base ref : string) : string := base +:+ "#" +:+ ref.

Definition demo_GetKeyValues (value : JSON) (members : list JSON)
  : list (list JSON) :=
  (λ member,
     match value, member with
     | JObj fields, JStr key =>
         match dict_get key fields with
         | Some v => [v]
         | None => []
         end
     | _, _ => []
     end) <$> members.

Definition demo_py_str (v : JSON) : string :=
  match v with
  | JStr s => s
  | JInt n => pretty n
  | JBool true => "True"
  | JBool false => "False"
  | JNull => "None"
  | JArr _ | JObj _ => "..."
  end.

Definition demo_GenKeyStrings (obtained : list (list JSON)) : list string :=
  foldr (λ vs rendered, vs ≫= λ v, (λ r, demo_py_str v +:+ "," +:+ r) <$> rendered)
        [""] obtained.

Definition demo_iv_mem (s : JSON) (recorded : list JSON) : bool :=
  bool_decide (s ∈ recorded).

Definition fresh_defaults : PKKeysDefaults (list JSON) :=
  mkPKKeysDefaults (list JSON) [] ∅.

(** Schema B refers to schema A, once without a key name and once by the
    name of a key that A does not have, and to schema C, which has no
    document. *)
Definition demo_fk_decls : list FKDecl :=
  [ mkFKDecl (Some "http://x/A") (Some (JArr [JStr "ref"])) None;
    mkFKDecl (Some "http://x/A") (Some (JArr [JStr "ref"])) (Some "nokey");
    mkFKDecl (Some "http://x/C") (Some (JArr [JStr "ref"])) None ].

Definition demo_keyList : list FeatureLoc :=
  [ mkFeatureLoc 17 demo_fk_decls "/properties/foreign_keys";
    mkFeatureLoc 23 [mkFKDecl None None None] "/items/foreign_keys" ].

Definition demo_engine : AbstractRefKey := ForeignKey_init "B" "b.json".

Definition demo_booted : AbstractRefKey :=
  match bootstrap demo_isabsuri demo_urijoin (cls := ForeignKey) demo_engine
          ([], [("foreign_keys", demo_keyList)], {["http://x/A"]}) with
  | Ok (_, self) => self
  | Raise _ => demo_engine
  end.

(** The engine after document [b1.json], whose [ref] is ["y"], went
    through the three declarations of the first schema node. *)
Definition demo_gathered : AbstractRefKey :=
  (validate demo_isabsuri demo_urijoin demo_GetKeyValues
     (mkRefKey "B" "b.json" "b1.json" "PrimaryKey" (FKWorld demo_booted))
     demo_fk_decls (JObj [("ref", JStr "y")]) 17).2.

Definition demo_pk_A : IndexDef (list JSON) :=
  mkIndexDef (list JSON) (mkIndexLoc "http://x/A" "/primary_key") "a" false
             [JStr "x"].

Definition demo_pk_D : IndexDef (list JSON) :=
  mkIndexDef (list JSON) (mkIndexLoc "http://x/D" "/primary_key") "d" false
             [JStr "y"].

Definition demo_contexts_A : dict (list (CheckContext (list JSON))) :=
  [ ("PrimaryKey",
     [ mkCheckContext _ (mkIndexContext _ [("a", demo_pk_A)]) ]) ].

Definition demo_contexts_AD : dict (list (CheckContext (list JSON))) :=
  [ ("PrimaryKey",
     [ mkCheckContext _ (mkIndexContext _ [("a", demo_pk_A)]);
       mkCheckContext _ (mkIndexContext _ [("d", demo_pk_D)]) ]) ].

Definition demo_doSecondPass (self : AbstractRefKey)
    (heap : PKKeysDefaults (list JSON))
    (contexts : dict (list (CheckContext (list JSON)))) :=
  doSecondPass (cls := ForeignKey) (list JSON) length demo_iv_mem
               demo_GenKeyStrings demo_py_str self heap contexts.

(** C1 on the code. Schemas A and D each own one primary key with a
    recorded value, held by two contexts. After Step A the aggregate of A
    is there with the flag of A's key, but its value lists and its by-name
    table are the objects every aggregate shares: they hold the value list
    and the name of D's key as well, so the aggregate of A is not limited
    to declarations owned by A. The second pass shows it: the foreign key
    to A with value ["y"] is stale when only A is loaded, and passes once
    D, which records ["y"], is loaded too. *)
Theorem aggregates_share_value_lists :
  let st :=
    consolidated (list JSON) length demo_engine fresh_defaults
                 demo_contexts_AD in
  let agg_A := mkPKKeys "http://x/A" false in
  dict_get "http://x/A" st.2 = Some agg_A
  ∧ PKKeys_vals (list JSON) st.1 agg_A = [[JStr "x"]; [JStr "y"]]
  ∧ PKKeys_by_name (list JSON) st.1 agg_A !! "d" = Some demo_pk_D
  ∧ owner (list JSON) demo_pk_D = "http://x/D"
  ∧ ¬ (∀ vals, vals ∈ PKKeys_vals (list JSON) st.1 agg_A →
         ∃ pkDef, pkDef ∈ pk_declarations (list JSON) demo_engine
                            demo_contexts_AD
                  ∧ owner (list JSON) pkDef = "http://x/A"
                  ∧ IndexDef_values (list JSON) pkDef = vals)
  ∧ reason <$> (demo_doSecondPass demo_gathered fresh_defaults
                                  demo_contexts_A).1.2
    = ["stale_fk"; "stale_fk"; "dangling_fk"]
  ∧ description <$> (demo_doSecondPass demo_gathered fresh_defaults
                                       demo_contexts_AD).1.2
    = ["Unmatchable FK (y) in b1.json to schema http://x/A (key nokey not found)";
       "No available documents from http://x/C schema, required by B"].
Proof.
  cbv zeta. split; [reflexivity |]. split; [reflexivity |].
  split; [by vm_compute |]. split; [reflexivity |].
  split; [| split; by vm_compute].
  intros Hscoped.
  destruct (Hscoped [JStr "y"]) as (pkDef & Hin & Hown & Hvals).
  { vm_compute. right. left. }
  vm_compute in Hin.
  apply elem_of_cons in Hin as [-> | Hin]; [discriminate Hvals |].
  apply elem_of_cons in Hin as [-> | Hin]; [discriminate Hown |].
  by apply elem_of_nil in Hin.
Qed.

(** Schema A declares a foreign key without [schema_id] on its member
    [ref]; document [a1.json] of schema A has ["y"] there. *)
Definition demo_own_decls : list FKDecl :=
  [ mkFKDecl None (Some (JArr [JStr "ref"])) None ].

Definition demo_own_booted : AbstractRefKey :=
  match bootstrap demo_isabsuri demo_urijoin (cls := ForeignKey)
          (ForeignKey_init "http://x/A" "a.json")
          ([], [("foreign_keys", [mkFeatureLoc 31 demo_own_decls "/foreign_keys"])],
           {["http://x/A"]}) with
  | Ok (_, self) => self
  | Raise _ => ForeignKey_init "http://x/A" "a.json"
  end.

Definition demo_own_gathered : AbstractRefKey :=
  (validate demo_isabsuri demo_urijoin demo_GetKeyValues
     (mkRefKey "http://x/A" "a.json" "a1.json" "PrimaryKey"
               (FKWorld demo_own_booted))
     demo_own_decls (JObj [("ref", JStr "y")]) 31).2.

(** C10 on the code. Bootstrap and gathering both resolve the declaration
    without [schema_id] to the URI of the declaring schema A: the
    registry holds it, with its occurrence, under that URI and under no
    other. The second pass then takes the aggregate of A, but the value
    lists it compares with are those every aggregate shares: the value
    ["y"], which no primary key of A records, is stale when only A is
    loaded and is accepted once schema D, whose key records ["y"], is
    loaded too. The foreign key is not checked against the primary keys of
    the declaring schema alone. *)
Theorem own_schema_key_checked_against_all_schemas :
  dict_keys (FKWorld demo_own_gathered) = ["http://x/A"]
  ∧ world_get "http://x/A" (site_id 31 0) (FKWorld demo_own_gathered)
    = Some (mkFKDef (mkFKLoc "http://x/A" "http://x/A" "/foreign_keys/0"
                             [mkFKVals [[JStr "y"]] "a1.json"])
                    (JArr [JStr "ref"]) None)
  ∧ owner (list JSON) demo_pk_A = "http://x/A"
  ∧ (JStr "y" ∉ IndexDef_values (list JSON) demo_pk_A)
  ∧ owner (list JSON) demo_pk_D ≠ "http://x/A"
  ∧ (demo_doSecondPass demo_own_gathered fresh_defaults demo_contexts_A).1
    = ({["a1.json"]}, {["a1.json"]},
       [ mkSecondPassError "stale_fk"
           "Unmatching FK (y) in a1.json to schema http://x/A (any primary key)"
           "a1.json" "/foreign_keys/0" ])
  ∧ (demo_doSecondPass demo_own_gathered fresh_defaults demo_contexts_AD).1
    = ({["a1.json"]}, ∅, []).
Proof.
  split; [by vm_compute |]. split; [by vm_compute |].
  split; [reflexivity |].
  split; [by intros ?%list_elem_of_singleton |].
  split; [discriminate |].
  split; by vm_compute.
Qed.

(** C8 as the specification words it, on the code: on an engine that has
    bootstrapped nothing, gathering one value registers declarations, so
    the registry does not change in occurrence sets only. *)
Lemma validate_registers_a_declaration :
  ¬ only_occurrences_change
      (FKWorld demo_engine)
      (FKWorld (validate demo_isabsuri demo_urijoin demo_GetKeyValues
                         demo_engine demo_fk_decls
                         (JObj [("ref", JStr "y")]) 17).2).
Proof.
  unfold only_occurrences_change, world_rel. intros Hrel.
  apply Forall2_length in Hrel. vm_compute in Hrel. discriminate Hrel.
Qed.

(** C5 as the specification words it, on the code: called with its
    default argument, [bootstrap] raises. *)
Lemma bootstrap_default_argument_raises :
  bootstrap demo_isabsuri demo_urijoin (cls := ForeignKey) demo_engine
            ([], [], ∅)
  = Raise (KeyError "foreign_keys").
Proof. unfold bootstrap. simpl. reflexivity. Qed.

(** C5 on the two schema nodes of [demo_keyList]: the call returns, with
    one error for schema C and one for schema B, which the catalogue does
    not hold. *)
Lemma bootstrap_registers_and_reports_witness :
  ∃ errors self',
    bootstrap demo_isabsuri demo_urijoin (cls := ForeignKey) demo_engine
              ([], [("foreign_keys", demo_keyList)], {["http://x/A"]})
    = Ok (errors, self')
    ∧ be_reason <$> errors = ["fk_no_schema"; "fk_no_schema"].
Proof.
  pose proof (bootstrap_registers_and_reports demo_isabsuri demo_urijoin
                (cls := ForeignKey) demo_engine []
                [("foreign_keys", demo_keyList)] {["http://x/A"]}) as H.
  change (dict_get triggerAttribute [("foreign_keys", demo_keyList)])
    with (Some demo_keyList) in H.
  destruct H as (errors & self' & Hok & Herrors & _).
  exists errors, self'. split; [exact Hok |].
  rewrite Herrors. by vm_compute.
Defined.

(** C2 on the gathered engine with only schema A loaded: schema C, second
    in the registry, has no aggregate. *)
Lemma dangling_when_no_aggregate_witness :
  let self := demo_gathered in
  let fkDefH :=
    [("17_2",
      mkFKDef (mkFKLoc "B" "http://x/C" "/properties/foreign_keys/2"
                       [mkFKVals [[JStr "y"]] "b1.json"])
              (JArr [JStr "ref"]) None)] in
  let st := consolidated (list JSON) length self fresh_defaults demo_contexts_A in
  let loop :=
    foldl (check_refSchema (cls := ForeignKey) (list JSON) demo_iv_mem
             demo_GenKeyStrings demo_py_str self st.1 st.2) acc_empty in
  let result := (demo_doSecondPass self fresh_defaults demo_contexts_A).1 in
  FKWorld self !! 1 = Some ("http://x/C", fkDefH)
  ∧ dict_get "http://x/C" st.2 = None
  ∧ result
    = acc_app (loop (take 1 (FKWorld self)))
        (acc_app (documents_under fkDefH, documents_under fkDefH,
                  dangling_errors ForeignKey self "http://x/C" fkDefH)
                 (loop (drop 2 (FKWorld self))))
  ∧ documents_under fkDefH ⊆ result.1.1
  ∧ documents_under fkDefH ⊆ result.1.2.
Proof.
  cbv zeta.
  split; [by vm_compute |]. split; [by vm_compute |].
  pose proof
    (dangling_when_no_aggregate (list JSON) length demo_iv_mem
       demo_GenKeyStrings demo_py_str demo_gathered fresh_defaults
       demo_contexts_A 1 "http://x/C" _
       ltac:(vm_compute; reflexivity) ltac:(vm_compute; reflexivity))
    as (Hres & Hchecked & Hfailed & _).
  split; [exact Hres |]. split; [exact Hchecked | exact Hfailed].
Defined.


(** * Further properties of the engine *)

(** ** The second pass, occurrence by occurrence *)

(** Every occurrence of the registry, with the referenced schema and the
    declaration it was gathered under, in the order the second pass meets
    them. *)
Definition all_occurrences (world : dict (dict FKDef))
  : list (string * FKDef * FKVals) :=
  world ≫= λ item, item.2 ≫= λ x,
    (λ fkVals, (item.1, x.2, fkVals)) <$> FKLoc_values (FKDef_fkLoc x.2).

Lemma elem_of_all_occurrences world refSchemaURI fkDef fkVals :
  (refSchemaURI, fkDef, fkVals) ∈ all_occurrences world
  ↔ ∃ fkDefH fk_loc_id,
      (refSchemaURI, fkDefH) ∈ world ∧ (fk_loc_id, fkDef) ∈ fkDefH
      ∧ fkVals ∈ FKLoc_values (FKDef_fkLoc fkDef).
Proof.
  unfold all_occurrences. rewrite list_elem_of_bind. split.
  - intros ([u H] & Hin & Hw). simpl in Hin.
    apply list_elem_of_bind in Hin as ([sid d] & Hin & Hd). simpl in Hin.
    apply list_elem_of_fmap in Hin as (v & [= -> -> ->] & Hv).
    by exists H, sid.
  - intros (H & sid & Hw & Hd & Hv). exists (refSchemaURI, H).
    split; [| done]. simpl. apply list_elem_of_bind.
    exists (sid, fkDef). split; [| done]. simpl.
    apply list_elem_of_fmap. by exists fkVals.
Qed.

Lemma acc_concat_cons (c : SecondPassAcc) (l : list SecondPassAcc) :
  acc_concat (c :: l) = acc_app c (acc_concat l).
Proof. done. Qed.

Lemma acc_concat_app (l1 l2 : list SecondPassAcc) :
  acc_concat (l1 ++ l2) = acc_app (acc_concat l1) (acc_concat l2).
Proof.
  induction l1 as [| c l1 IH]; simpl.
  - by rewrite acc_app_empty_l.
  - unfold acc_concat in *. simpl. by rewrite IH, acc_app_assoc.
Qed.

Lemma foldl_contributions_bind {B} (f : SecondPassAcc → B → SecondPassAcc)
    (G : B → list SecondPassAcc) (l : list B) (acc : SecondPassAcc) :
  (∀ acc x, f acc x = acc_app acc (acc_concat (G x))) →
  foldl f acc l = acc_app acc (acc_concat (l ≫= G)).
Proof.
  intros Hf. revert acc. induction l as [| x l IH]; intros acc.
  - symmetry. apply acc_app_empty_r.
  - rewrite foldl_cons, IH, Hf, bind_cons, acc_concat_app, acc_app_assoc.
    done.
Qed.

Lemma elem_of_acc_concat_checked (l : list SecondPassAcc) (doc : string) :
  doc ∈ (acc_concat l).1.1 ↔ ∃ c, c ∈ l ∧ doc ∈ c.1.1.
Proof.
  induction l as [| c l IH]; simpl.
  - split; [by intros ?%not_elem_of_empty |].
    by intros (? & ?%elem_of_nil & _).
  - rewrite elem_of_union, IH. split.
    + intros [? | (c' & ? & ?)]; [exists c | exists c']; split; try done;
        [left | by right].
    + intros (c' & [-> | ?]%elem_of_cons & ?); [by left | right; by exists c'].
Qed.

Lemma elem_of_acc_concat_failed (l : list SecondPassAcc) (doc : string) :
  doc ∈ (acc_concat l).1.2 ↔ ∃ c, c ∈ l ∧ doc ∈ c.1.2.
Proof.
  induction l as [| c l IH]; simpl.
  - split; [by intros ?%not_elem_of_empty |].
    by intros (? & ?%elem_of_nil & _).
  - rewrite elem_of_union, IH. split.
    + intros [? | (c' & ? & ?)]; [exists c | exists c']; split; try done;
        [left | by right].
    + intros (c' & [-> | ?]%elem_of_cons & ?); [by left | right; by exists c'].
Qed.

Lemma elem_of_acc_concat_errors (l : list SecondPassAcc)
    (e : SecondPassErrorDict) :
  e ∈ (acc_concat l).2 ↔ ∃ c, c ∈ l ∧ e ∈ c.2.
Proof.
  induction l as [| c l IH]; simpl.
  - split; [by intros ?%elem_of_nil |].
    by intros (? & ?%elem_of_nil & _).
  - rewrite elem_of_app, IH. split.
    + intros [? | (c' & ? & ?)]; [exists c | exists c']; split; try done;
        [left | by right].
    + intros (c' & [-> | ?]%elem_of_cons & ?); [by left | right; by exists c'].
Qed.

Section SecondPassResult.
Variable IndexedValues : Type.
Variable iv_len : IndexedValues → nat.
Variable iv_mem : JSON → IndexedValues → bool.
Variable GenKeyStrings : list (list JSON) → list string.
Variable py_str : JSON → string.
Context {cls : RefKeyClass}.

(** What the second pass adds for one occurrence, given the aggregates and
    the shared defaults Step A left. *)
Definition occurrence_contribution (self : AbstractRefKey)
    (heap : PKKeysDefaults IndexedValues) (pkContextsHash : dict PKKeys)
    (o : string * FKDef * FKVals) : SecondPassAcc :=
  let '(refSchemaURI, fkDef, fkVals) := o in
  match dict_get refSchemaURI pkContextsHash with
  | None =>
      ({[FKVals_where fkVals]}, {[FKVals_where fkVals]},
       [dangling_error cls self refSchemaURI fkDef fkVals])
  | Some checkValuesKeys =>
      match comparison_set IndexedValues heap checkValuesKeys fkDef with
      | Some (checkValuesList, limit_scope) =>
          checked_occurrence IndexedValues iv_mem GenKeyStrings py_str
            refSchemaURI fkDef checkValuesList limit_scope fkVals
      | None =>
          unmatchable_occurrence GenKeyStrings py_str refSchemaURI fkDef
            (default "" (FKDef_refers_to fkDef)) fkVals
      end
  end.

Lemma dangling_fkDef_contributions self refSchemaURI acc item :
  dangling_fkDef self refSchemaURI acc item
  = acc_app acc
      (acc_concat
         ((λ fkVals,
             ({[FKVals_where fkVals]}, {[FKVals_where fkVals]},
              [dangling_error cls self refSchemaURI item.2 fkVals]))
          <$> FKLoc_values (FKDef_fkLoc item.2))).
Proof.
  destruct item as [sid fkDef]. unfold dangling_fkDef. simpl.
  apply foldl_contributions. intros [[W F] errs] v.
  unfold dangling_fkVals, acc_app, dangling_error. simpl.
  apply acc_eq; simpl; [set_solver | set_solver | done].
Qed.

Lemma check_refSchema_contributions self heap pkContextsHash acc item :
  check_refSchema IndexedValues iv_mem GenKeyStrings py_str self heap
                  pkContextsHash acc item
  = acc_app acc
      (acc_concat
         (item.2 ≫= λ x,
            (λ fkVals,
               occurrence_contribution self heap pkContextsHash
                                       (item.1, x.2, fkVals))
            <$> FKLoc_values (FKDef_fkLoc x.2))).
Proof.
  destruct item as [refSchemaURI fkDefH]. unfold check_refSchema. simpl.
  destruct (dict_get refSchemaURI pkContextsHash) as [checkValuesKeys |].
  - apply foldl_contributions_bind. intros acc' [sid fkDef].
    rewrite check_fkDef_eq. simpl. do 2 f_equal.
    by destruct (comparison_set IndexedValues heap checkValuesKeys fkDef)
      as [[cvl flag] |].
  - apply foldl_contributions_bind. intros acc' x.
    apply dangling_fkDef_contributions.
Qed.

(** The result of [doSecondPass] is the sum of what the occurrences of the
    registry contribute, one after the other. *)
Lemma doSecondPass_flat self heap contexts :
  (doSecondPass IndexedValues iv_len iv_mem GenKeyStrings py_str
                self heap contexts).1
  = acc_concat
      (occurrence_contribution self
         (consolidated IndexedValues iv_len self heap contexts).1
         (consolidated IndexedValues iv_len self heap contexts).2
       <$> all_occurrences (FKWorld self)).
Proof.
  rewrite (doSecondPass_eq _ _ _ _ _ cls). simpl.
  rewrite (foldl_contributions_bind _ _ _ _
             (check_refSchema_contributions self _ _)).
  rewrite acc_app_empty_l. f_equal.
  unfold all_occurrences. rewrite fmap_bind_comm.
  apply list_bind_ext; [| done]. intros [uri H]; simpl.
  rewrite fmap_bind_comm. apply list_bind_ext; [| done]. intros [sid d]; simpl.
  by rewrite <- list_fmap_compose.
Qed.

Lemma occurrence_contribution_facts self heap pkContextsHash
    refSchemaURI fkDef fkVals :
  let c :=
    occurrence_contribution self heap pkContextsHash
                            (refSchemaURI, fkDef, fkVals) in
  c.1.1 = {[FKVals_where fkVals]}
  ∧ c.1.2 ⊆ c.1.1
  ∧ ∀ e, e ∈ c.2 →
      file e = FKVals_where fkVals
      ∧ path e = FKLoc_path (FKDef_fkLoc fkDef)
      ∧ (reason e = "stale_fk" ∨ reason e = _danglingErrorReason)
      ∧ FKVals_where fkVals ∈ c.1.2.
Proof.
  unfold occurrence_contribution.
  destruct (dict_get refSchemaURI pkContextsHash) as [agg |]; simpl.
  - destruct (comparison_set IndexedValues heap agg fkDef) as [[cvl flag] |];
      simpl.
    + split; [done |]. split; [case_decide; set_solver |].
      intros e (s & -> & Hs)%list_elem_of_fmap. simpl.
      do 2 (split; [done |]). split; [by left |].
      rewrite decide_False; [by apply elem_of_singleton |].
      intros Hnil. rewrite Hnil in Hs. by apply elem_of_nil in Hs.
    + split; [done |]. split; [done |].
      intros e (s & -> & Hs)%list_elem_of_fmap. simpl.
      do 2 (split; [done |]). split; [by left | by apply elem_of_singleton].
  - split; [done |]. split; [done |].
    intros e ->%list_elem_of_singleton. simpl.
    do 2 (split; [done |]). split; [by right | by apply elem_of_singleton].
Qed.

(** X1. Every document [doSecondPass] reports as failed is among the
    documents it reports as checked. *)
Theorem secondPass_failed_are_checked
    (self : AbstractRefKey) (heap : PKKeysDefaults IndexedValues)
    (contexts : dict (list (CheckContext IndexedValues))) :
  let result :=
    (doSecondPass IndexedValues iv_len iv_mem GenKeyStrings py_str
                  self heap contexts).1 in
  result.1.2 ⊆ result.1.1.
Proof.
  cbv zeta. rewrite doSecondPass_flat. intros doc.
  rewrite elem_of_acc_concat_failed, elem_of_acc_concat_checked.
  intros (c & Hc & Hdoc). exists c. split; [done |].
  apply list_elem_of_fmap in Hc as ([[u d] v] & -> & _).
  by apply (occurrence_contribution_facts self _ _ u d v).
Qed.

(** X2. The documents [doSecondPass] reports as checked are exactly the
    documents of the occurrences held by the registry, whatever the
    primary-key contexts are. *)
Theorem secondPass_checked_documents
    (self : AbstractRefKey) (heap : PKKeysDefaults IndexedValues)
    (contexts : dict (list (CheckContext IndexedValues))) (doc : string) :
  doc ∈ (doSecondPass IndexedValues iv_len iv_mem GenKeyStrings py_str
                      self heap contexts).1.1.1
  ↔ ∃ fkVals, occurrence_in (FKWorld self) fkVals
              ∧ FKVals_where fkVals = doc.
Proof.
  rewrite doSecondPass_flat, elem_of_acc_concat_checked. split.
  - intros (c & Hc & Hdoc).
    apply list_elem_of_fmap in Hc as ([[u d] v] & -> & Hin).
    destruct (occurrence_contribution_facts self
                (consolidated IndexedValues iv_len self heap contexts).1
                (consolidated IndexedValues iv_len self heap contexts).2
                u d v) as [HW _].
    cbv zeta in HW. rewrite HW in Hdoc. apply elem_of_singleton in Hdoc.
    apply elem_of_all_occurrences in Hin as (H & sid & ? & ? & ?).
    exists v. split; [by exists u, H, sid, d | done].
  - intros (v & (u & H & sid & d & Hu & Hd & Hv) & <-).
    eexists. split.
    + apply list_elem_of_fmap. exists (u, d, v). split; [reflexivity |].
      apply elem_of_all_occurrences. by exists H, sid.
    + destruct (occurrence_contribution_facts self
                  (consolidated IndexedValues iv_len self heap contexts).1
                  (consolidated IndexedValues iv_len self heap contexts).2
                  u d v) as [HW _].
      cbv zeta in HW. rewrite HW. by apply elem_of_singleton.
Qed.

(** X3. Every error of [doSecondPass] stems from an occurrence of the
    registry: its file is the document of that occurrence, its path is the
    path of the declaration the occurrence was gathered under, and its file
    is among the failed documents. *)
Theorem secondPass_errors_are_located
    (self : AbstractRefKey) (heap : PKKeysDefaults IndexedValues)
    (contexts : dict (list (CheckContext IndexedValues)))
    (e : SecondPassErrorDict) :
  let result :=
    (doSecondPass IndexedValues iv_len iv_mem GenKeyStrings py_str
                  self heap contexts).1 in
  e ∈ result.2 →
  file e ∈ result.1.2
  ∧ ∃ refSchemaURI fkDefH fk_loc_id fkDef fkVals,
      (refSchemaURI, fkDefH) ∈ FKWorld self
      ∧ (fk_loc_id, fkDef) ∈ fkDefH
      ∧ fkVals ∈ FKLoc_values (FKDef_fkLoc fkDef)
      ∧ file e = FKVals_where fkVals
      ∧ path e = FKLoc_path (FKDef_fkLoc fkDef).
Proof.
  cbv zeta. rewrite doSecondPass_flat.
  rewrite elem_of_acc_concat_errors, elem_of_acc_concat_failed.
  intros (c & Hc & He).
  pose proof Hc as Hc'.
  apply list_elem_of_fmap in Hc' as ([[u d] v] & -> & Hin).
  destruct (occurrence_contribution_facts self
              (consolidated IndexedValues iv_len self heap contexts).1
              (consolidated IndexedValues iv_len self heap contexts).2
              u d v) as (_ & _ & Herr).
  destruct (Herr e He) as (Hfile & Hpath & _ & Hfailed).
  split.
  - eexists. split; [exact Hc |]. by rewrite Hfile.
  - apply elem_of_all_occurrences in Hin as (H & sid & ? & ? & ?).
    by exists u, H, sid, d, v.
Qed.

(** X4. [doSecondPass] produces two kinds of errors and no other: the
    reason of every error is [stale_fk] or the dangling reason of the
    subclass. *)
Theorem secondPass_error_reasons
    (self : AbstractRefKey) (heap : PKKeysDefaults IndexedValues)
    (contexts : dict (list (CheckContext IndexedValues))) :
  Forall (λ e, reason e = "stale_fk" ∨ reason e = _danglingErrorReason)
         (doSecondPass IndexedValues iv_len iv_mem GenKeyStrings py_str
                       self heap contexts).1.2.
Proof.
  apply Forall_forall. intros e. rewrite doSecondPass_flat.
  rewrite elem_of_acc_concat_errors. intros (c & Hc & He).
  apply list_elem_of_fmap in Hc as ([[u d] v] & -> & _).
  destruct (occurrence_contribution_facts self
              (consolidated IndexedValues iv_len self heap contexts).1
              (consolidated IndexedValues iv_len self heap contexts).2
              u d v) as (_ & _ & Herr).
  by destruct (Herr e He) as (_ & _ & ? & _).
Qed.

Lemma no_occurrence_all_occurrences world :
  (∀ fkVals, ¬ occurrence_in world fkVals) → all_occurrences world = [].
Proof.
  intros Hnone. destruct (all_occurrences world) as [| [[u d] v] l] eqn:E;
    [done |].
  exfalso. apply (Hnone v).
  assert ((u, d, v) ∈ all_occurrences world) as Hin by (rewrite E; left).
  apply elem_of_all_occurrences in Hin as (H & sid & ? & ? & ?).
  by exists u, H, sid, d.
Qed.

(** X5. With no occurrence in the registry, as right after bootstrap,
    [doSecondPass] checks no document, fails none and reports no error,
    whatever the primary-key contexts are. *)
Theorem secondPass_without_occurrences
    (self : AbstractRefKey) (heap : PKKeysDefaults IndexedValues)
    (contexts : dict (list (CheckContext IndexedValues))) :
  (∀ fkVals, ¬ occurrence_in (FKWorld self) fkVals) →
  (doSecondPass IndexedValues iv_len iv_mem GenKeyStrings py_str
                self heap contexts).1
  = (∅, ∅, []).
Proof.
  intros Hnone. rewrite doSecondPass_flat.
  by rewrite (no_occurrence_all_occurrences _ Hnone).
Qed.

Lemma cleanup_no_occurrence self fkVals :
  ¬ occurrence_in (FKWorld (cleanup self)) fkVals.
Proof.
  intros (u & H & sid & d & Hu & Hd & Hv). unfold cleanup in Hu. simpl in Hu.
  apply list_elem_of_fmap in Hu as ([u' H'] & [= -> ->] & _).
  apply list_elem_of_fmap in Hd as ([sid' d'] & [= -> ->] & _).
  simpl in Hv. by apply elem_of_nil in Hv.
Qed.

(** X6. After [cleanup], [doSecondPass] checks no document and reports no
    error, whatever was gathered before. *)
Theorem secondPass_after_cleanup
    (self : AbstractRefKey) (heap : PKKeysDefaults IndexedValues)
    (contexts : dict (list (CheckContext IndexedValues))) :
  (doSecondPass IndexedValues iv_len iv_mem GenKeyStrings py_str
                (cleanup self) heap contexts).1
  = (∅, ∅, []).
Proof.
  rewrite doSecondPass_flat.
  rewrite (no_occurrence_all_occurrences _ (cleanup_no_occurrence self)).
  done.
Qed.

End SecondPassResult.

(** ** Step A and the shared defaults *)

Section StepAResult.
Variable IndexedValues : Type.
Variable iv_len : IndexedValues → nat.
Variable iv_mem : JSON → IndexedValues → bool.
Variable GenKeyStrings : list (list JSON) → list string.
Variable py_str : JSON → string.
Context {cls : RefKeyClass}.

Lemma doSecondPass_defaults self heap contexts :
  (doSecondPass IndexedValues iv_len iv_mem GenKeyStrings py_str
                self heap contexts).2
  = (consolidated IndexedValues iv_len self heap contexts).1.
Proof. by rewrite (doSecondPass_eq _ _ _ _ _ cls). Qed.

(** X7. After Step A a schema has an aggregate exactly when one of the
    primary keys walked is owned by it and has recorded values; the
    aggregate then carries the URI of the schema and the scope flag of the
    first such key, whatever keys follow. *)
Theorem aggregate_of_schema
    (self : AbstractRefKey) (heap : PKKeysDefaults IndexedValues)
    (contexts : dict (list (CheckContext IndexedValues))) (uri : string) :
  dict_get uri (consolidated IndexedValues iv_len self heap contexts).2
  = (λ pkDef, mkPKKeys uri (IndexDef_limit_scope IndexedValues pkDef))
      <$> head (filter (λ pkDef, 0 < iv_len (IndexDef_values IndexedValues pkDef)
                                 ∧ IndexLoc_schemaURI
                                     (IndexDef_indexLoc IndexedValues pkDef)
                                   = uri)
                       (pk_declarations IndexedValues self contexts)).
Proof.
  rewrite consolidated_flat, consolidate_pkDefs_eq. simpl.
  by rewrite (aggregate_of_first_seen IndexedValues iv_len _ [] uri).
Qed.

(** X8. Each call of [doSecondPass] leaves the list shared by all
    aggregates as it found it, followed by the value list of every primary
    key walked that has recorded values, whichever schema owns the key:
    nothing is ever removed from it. *)
Theorem shared_value_lists_grow
    (self : AbstractRefKey) (heap : PKKeysDefaults IndexedValues)
    (contexts : dict (list (CheckContext IndexedValues))) :
  default_vals IndexedValues
    (doSecondPass IndexedValues iv_len iv_mem GenKeyStrings py_str
                  self heap contexts).2
  = default_vals IndexedValues heap
    ++ (IndexDef_values IndexedValues
          <$> filter (λ pkDef, 0 < iv_len (IndexDef_values IndexedValues pkDef))
                     (pk_declarations IndexedValues self contexts)).
Proof.
  rewrite doSecondPass_defaults, consolidated_flat, consolidate_pkDefs_eq.
  done.
Qed.

Lemma file_name_keeps by_name (pkDef other : IndexDef IndexedValues) k :
  by_name !! k = Some other →
  file_name IndexedValues by_name pkDef !! k = Some other.
Proof.
  intros Hk. unfold file_name. case_decide as Htaken; [done |].
  rewrite lookup_insert_ne; [done |]. intros <-.
  destruct Htaken. by rewrite Hk.
Qed.

Lemma file_names_keep pkDefs by_name (other : IndexDef IndexedValues) k :
  by_name !! k = Some other →
  foldl (file_name IndexedValues) by_name pkDefs !! k = Some other.
Proof.
  revert by_name. induction pkDefs as [| pkDef pkDefs IH]; intros by_name Hk;
    [done |].
  rewrite foldl_cons. by apply IH, file_name_keeps.
Qed.

(** X9. First wins: a key name that the shared by-name table holds before
    a call of [doSecondPass] still denotes the same primary key after it,
    whatever keys of that name the call walks. *)
Theorem filed_names_are_kept
    (self : AbstractRefKey) (heap : PKKeysDefaults IndexedValues)
    (contexts : dict (list (CheckContext IndexedValues)))
    (name : string) (pkDef : IndexDef IndexedValues) :
  default_by_name IndexedValues heap !! name = Some pkDef →
  default_by_name IndexedValues
    (doSecondPass IndexedValues iv_len iv_mem GenKeyStrings py_str
                  self heap contexts).2 !! name
  = Some pkDef.
Proof.
  intros Hname.
  rewrite doSecondPass_defaults, consolidated_flat, consolidate_pkDefs_eq.
  simpl. by apply file_names_keep.
Qed.

Lemma pk_declarations_other_classes self
    (contexts : dict (list (CheckContext IndexedValues))) :
  Forall (λ item, item.1 ≠ joinClass self) contexts →
  pk_declarations IndexedValues self contexts = [].
Proof.
  unfold pk_declarations. induction 1 as [| [className pkContexts] l Hne _ IH];
    [done |].
  rewrite bind_cons, IH. simpl in *. by rewrite decide_False.
Qed.

(** X10. When no context is filed under the name of the join class, in
    particular when the mapping is empty, [doSecondPass] leaves the shared
    defaults untouched and finds every occurrence dangling: one error with
    the dangling reason per occurrence of the registry, in order, and every
    checked document failed. *)
Theorem secondPass_without_primary_keys
    (self : AbstractRefKey) (heap : PKKeysDefaults IndexedValues)
    (contexts : dict (list (CheckContext IndexedValues))) :
  Forall (λ item, item.1 ≠ joinClass self) contexts →
  let result :=
    doSecondPass IndexedValues iv_len iv_mem GenKeyStrings py_str
                 self heap contexts in
  result.2 = heap
  ∧ result.1.1.2 = result.1.1.1
  ∧ result.1.2
    = (λ o : string * FKDef * FKVals,
         mkSecondPassError _danglingErrorReason
           ("No available documents from " +:+ o.1.1
            +:+ " schema, required by " +:+ schemaURI self)
           (FKVals_where o.2) (FKLoc_path (FKDef_fkLoc o.1.2)))
      <$> all_occurrences (FKWorld self).
Proof.
  intros Hother. cbv zeta.
  assert (consolidated IndexedValues iv_len self heap contexts = (heap, []))
    as Hst.
  { rewrite consolidated_flat.
    by rewrite (pk_declarations_other_classes self _ Hother). }
  rewrite doSecondPass_defaults, doSecondPass_flat, Hst. simpl.
  split; [done |].
  induction (all_occurrences (FKWorld self)) as [| [[u d] v] l [IH1 IH2]];
    [done |].
  rewrite !fmap_cons, acc_concat_cons.
  destruct (acc_concat _) as [[W F] E]. simpl in *. by subst.
Qed.

End StepAResult.

(** ** forget and cleanup, composed *)

Lemma forget_def_nothing f removed fkDef :
  ¬ mentions f fkDef → forget_def f removed fkDef = (removed, fkDef).
Proof.
  intros Hno. unfold forget_def.
  destruct (filter (λ v, FKVals_where v = f) (FKLoc_values (FKDef_fkLoc fkDef)))
    as [| v0 l] eqn:Hf; [done |].
  exfalso. apply Hno. exists v0.
  assert (v0 ∈ filter (λ v, FKVals_where v = f)
                      (FKLoc_values (FKDef_fkLoc fkDef))) as Hin
    by (rewrite Hf; left).
  by apply list_elem_of_filter in Hin as [? ?].
Qed.

Lemma forget_defs_nothing f removed fkDefs :
  (∀ sid d, (sid, d) ∈ fkDefs → ¬ mentions f d) →
  forget_defs f removed fkDefs = (removed, fkDefs).
Proof.
  revert removed. induction fkDefs as [| [sid d] rest IH]; intros removed Hno;
    [done |].
  simpl. rewrite forget_def_nothing by (apply (Hno sid); left).
  rewrite IH; [done |]. intros sid' d' Hin. apply (Hno sid'). by right.
Qed.

Lemma forget_world_nothing f removed world :
  (∀ v, occurrence_in world v → FKVals_where v ≠ f) →
  forget_world f removed world = (removed, world).
Proof.
  revert removed. induction world as [| [uri H] rest IH]; intros removed Hno;
    [done |].
  simpl. rewrite forget_defs_nothing.
  - rewrite IH; [done |]. intros v (u & H0 & sid & d & Hu & Hd & Hv).
    apply Hno. exists u, H0, sid, d. split; [by right | done].
  - intros sid d Hd (v & Hv & Hw). apply (Hno v); [| done].
    exists uri, H, sid, d. split; [left | done].
Qed.

Lemma forgotten_world_forgets f world world' :
  world_rel (forgotten f) world world' →
  ∀ v, occurrence_in world' v → FKVals_where v ≠ f.
Proof.
  intros Hrel v (u & H' & sid & d' & Hu & Hd & Hv).
  apply list_elem_of_lookup in Hu as [i Hi].
  destruct (Forall2_lookup_r _ _ _ _ _ Hrel Hi) as ([u0 H] & _ & _ & HH).
  simpl in HH. apply list_elem_of_lookup in Hd as [j Hj].
  destruct (Forall2_lookup_r _ _ _ _ _ HH Hj) as ([sid0 d] & _ & _ & _ & Hvals).
  simpl in Hvals. rewrite Hvals in Hv.
  by apply list_elem_of_filter in Hv as [? _].
Qed.

(** X11. Forgetting a document twice: the second [forget] finds nothing,
    returns [False] and leaves the engine as the first left it. *)
Theorem forget_twice (self : AbstractRefKey) (the_json_file : string) :
  forget (forget self the_json_file).2 the_json_file
  = (false, (forget self the_json_file).2).
Proof.
  unfold forget.
  destruct (forget_world_spec the_json_file false (FKWorld self)) as [Hrel _].
  destruct (forget_world the_json_file false (FKWorld self)) as [r w]. simpl in *.
  rewrite forget_world_nothing; [done |].
  by apply (forgotten_world_forgets _ (FKWorld self)).
Qed.

Lemma cleaned_related (w w' : dict (dict FKDef)) :
  world_rel same_declaration w w' →
  (prod_map id (λ fkDefH : dict FKDef,
                  prod_map id (FKDef_with_values []) <$> fkDefH) <$> w)
  = (prod_map id (λ fkDefH : dict FKDef,
                    prod_map id (FKDef_with_values []) <$> fkDefH) <$> w').
Proof.
  induction 1 as [| [u H] [u' H'] w w' [Hu HH] _ IH]; [done |].
  simpl in *. subst u'. f_equal; [| exact IH]. f_equal. clear IH.
  induction HH as [| [s d] [s' d'] H H' [Hs Hd] _ IH]; [done |].
  simpl in *. subst s'. f_equal; [| exact IH]. f_equal.
  destruct Hd as (H1 & H2 & H3 & H4 & H5).
  unfold FKDef_with_values. by rewrite H1, H2, H3, H4, H5.
Qed.

Lemma forgotten_same f (w w' : dict (dict FKDef)) :
  world_rel (forgotten f) w w' → world_rel same_declaration w w'.
Proof.
  intros Hrel. eapply Forall2_impl; [exact Hrel |].
  intros [u H] [u' H'] [Hu HH]. split; [done |].
  eapply Forall2_impl; [exact HH |]. by intros [s d] [s' d'] [? [? _]].
Qed.

(** X12. [cleanup] absorbs the other lifecycle operations: cleaning up
    after a [forget] gives the engine that cleaning up at once gives,
    cleaning up twice is cleaning up once, and a [forget] after [cleanup]
    finds nothing to remove, returns [False] and changes nothing. *)
Theorem cleanup_absorbs (self : AbstractRefKey) (the_json_file : string) :
  cleanup (forget self the_json_file).2 = cleanup self
  ∧ cleanup (cleanup self) = cleanup self
  ∧ forget (cleanup self) the_json_file = (false, cleanup self).
Proof.
  split; [| split].
  - destruct (forget_world_spec the_json_file false (FKWorld self)) as [Hrel _].
    unfold forget.
    destruct (forget_world the_json_file false (FKWorld self)) as [r w].
    simpl in *. unfold cleanup, with_FKWorld. simpl. f_equal.
    symmetry. by apply cleaned_related, (forgotten_same the_json_file).
  - unfold cleanup at 1 3. unfold with_FKWorld. simpl. f_equal.
    symmetry. apply cleaned_related.
    apply Forall2_fmap_r, Forall_Forall2_diag, Forall_forall.
    intros [u H] _. split; [done |]. simpl.
    apply Forall2_fmap_r, Forall_Forall2_diag, Forall_forall.
    intros [s d] _. split; [done |]. apply FKDef_with_values_same.
  - unfold forget. rewrite forget_world_nothing; [done |].
    intros v Hv. by apply cleanup_no_occurrence in Hv.
Qed.

(** ** Gathering, across the items of the array *)

Lemma same_declaration_refl d : same_declaration d d.
Proof. by repeat split. Qed.

Lemma same_declaration_trans d1 d2 d3 :
  same_declaration d1 d2 → same_declaration d2 d3 → same_declaration d1 d3.
Proof.
  intros (A1 & A2 & A3 & A4 & A5) (B1 & B2 & B3 & B4 & B5).
  repeat split; congruence.
Qed.

Lemma world_rel_trans (R : FKDef → FKDef → Prop) w1 w2 w3 :
  (∀ a b c, R a b → R b c → R a c) →
  world_rel R w1 w2 → world_rel R w2 w3 → world_rel R w1 w3.
Proof.
  intros HR H12 H23. eapply Forall2_trans; [| exact H12 | exact H23].
  intros [u1 H1] [u2 H2] [u3 H3] [Hu12 HH12] [Hu23 HH23]; simpl in *.
  split; [congruence |].
  eapply Forall2_trans; [| exact HH12 | exact HH23].
  intros [s1 d1] [s2 d2] [s3 d3] [? ?] [? ?]; simpl in *.
  split; [congruence | eauto].
Qed.

Lemma dict_set_rel {V} (R : V → V → Prop) (d : dict V) k v v0 :
  (∀ x, R x x) → dict_get k d = Some v0 → R v0 v →
  Forall2 (λ x x' : string * V, x.1 = x'.1 ∧ R x.2 x'.2) d (dict_set k v d).
Proof.
  intros Hrefl. induction d as [| [k0 x] d IH]; simpl; [done |].
  case_decide as Hk.
  - intros [= ->] Hv. subst k0. constructor; [done |].
    apply Forall_Forall2_diag, Forall_forall. by intros [? ?] _.
  - intros Hget Hv. constructor; [done | by apply IH].
Qed.

Lemma world_set_rel uri sid (fkDef0 fkDef : FKDef) world :
  world_get uri sid world = Some fkDef0 →
  same_declaration fkDef0 fkDef →
  world_rel same_declaration world (world_set uri sid fkDef world).
Proof.
  unfold world_get, world_set. intros Hget Hsame.
  destruct (dict_get uri world) as [fkDefH |] eqn:Huri; [| done].
  simpl in *.
  apply (dict_set_rel
           (λ H H' : dict FKDef,
              Forall2 (λ x x' : string * FKDef,
                         x.1 = x'.1 ∧ same_declaration x.2 x'.2) H H')
           world uri _ fkDefH); [| done |].
  - intros H. apply Forall_Forall2_diag, Forall_forall.
    intros [? ?] _. split; [done | apply same_declaration_refl].
  - apply (dict_set_rel same_declaration fkDefH sid fkDef fkDef0);
      [apply same_declaration_refl | done | done].
Qed.

Lemma elem_of_enumerate {A} (l : list A) (i : nat) (x : A) :
  (i, x) ∈ enumerate l ↔ l !! i = Some x.
Proof.
  unfold enumerate. rewrite elem_of_lookup_imap. split.
  - by intros (j & y & [= -> ->] & ?).
  - intros. by exists i, x.
Qed.

Lemma enumerate_snoc {A} (l : list A) (x : A) :
  enumerate (l ++ [x]) = enumerate l ++ [(length l, x)].
Proof.
  unfold enumerate. rewrite imap_app. simpl. by rewrite Nat.add_0_r.
Qed.

Lemma world_get_Some_occurrence world uri sid fkDef fkVals :
  world_get uri sid world = Some fkDef →
  fkVals ∈ FKLoc_values (FKDef_fkLoc fkDef) → occurrence_in world fkVals.
Proof.
  unfold world_get. intros Hget Hv.
  destruct (dict_get uri world) as [fkDefH |] eqn:Huri; [| done].
  simpl in Hget. exists uri, fkDefH, sid, fkDef.
  split; [by apply dict_get_Some_elem |].
  split; [by apply dict_get_Some_elem | done].
Qed.

Section GatheringMore.
Variable isabsuri : string → bool.
Variable urijoin : string → string → string.
Variable GetKeyValues : JSON → list JSON → list (list JSON).
Context {cls : RefKeyClass}.

(** A declaration as gathering may leave it: the same declaration, with
    at least the occurrences it had. *)
Definition grown (d d' : FKDef) : Prop :=
  same_declaration d d'
  ∧ FKLoc_values (FKDef_fkLoc d) ⊆ FKLoc_values (FKDef_fkLoc d').

Lemma validate_decl_grows self schema_id value world it uri sid d :
  world_get uri sid world = Some d →
  ∃ d', world_get uri sid
          (validate_decl isabsuri urijoin GetKeyValues self schema_id value
                         world it)
        = Some d'
        ∧ grown d d'.
Proof.
  destruct it as [i decl]. intros Hget. rewrite validate_decl_eq, world_get_set.
  case_decide as Hkey.
  - destruct Hkey as [-> ->]. eexists. split; [reflexivity |].
    unfold addressed_FKDef. rewrite Hget. simpl.
    split; [apply FKDef_with_values_same |]. simpl.
    intros v Hv. unfold set_add. case_decide; [done |].
    apply elem_of_app. by left.
  - exists d. split; [done |]. split; [apply same_declaration_refl | done].
Qed.

Lemma validate_decls_grow self schema_id value its world uri sid d :
  world_get uri sid world = Some d →
  ∃ d', world_get uri sid
          (foldl (validate_decl isabsuri urijoin GetKeyValues self schema_id
                                value) world its)
        = Some d'
        ∧ grown d d'.
Proof.
  revert world d. induction its as [| it its IH]; intros world d Hget.
  - exists d. split; [done |]. split; [apply same_declaration_refl | done].
  - rewrite foldl_cons.
    destruct (validate_decl_grows self schema_id value world it uri sid d Hget)
      as (d1 & Hget1 & [Hs1 Hv1]).
    destruct (IH _ d1 Hget1) as (d2 & Hget2 & [Hs2 Hv2]).
    exists d2. split; [done |].
    split; [by eapply same_declaration_trans | by etrans].
Qed.

Lemma validate_world self fk_defs value schema_id :
  FKWorld (validate isabsuri urijoin GetKeyValues self fk_defs value
                    schema_id).2
  = foldl (validate_decl isabsuri urijoin GetKeyValues self schema_id value)
          (FKWorld self) (enumerate fk_defs).
Proof. by destruct fk_defs. Qed.

(** X13. Gathering never loses anything: a declaration registered before
    [validate] is registered after it under the same referenced schema and
    site id, with the same owning and referenced URI, path, members and
    target key name, and with every occurrence it had. *)
Theorem validate_keeps_registered
    (self : AbstractRefKey) (fk_defs : list FKDecl) (value : JSON)
    (schema_id : N) (uri sid : string) (fkDef : FKDef) :
  world_get uri sid (FKWorld self) = Some fkDef →
  ∃ fkDef',
    world_get uri sid
      (FKWorld (validate isabsuri urijoin GetKeyValues self fk_defs value
                         schema_id).2)
    = Some fkDef'
    ∧ same_declaration fkDef fkDef'
    ∧ FKLoc_values (FKDef_fkLoc fkDef) ⊆ FKLoc_values (FKDef_fkLoc fkDef').
Proof.
  intros Hget. rewrite validate_world.
  by apply validate_decls_grow.
Qed.

Lemma validate_decls_registered self schema_id value its world :
  (∀ it, it ∈ its →
     is_Some (world_get (resolved_target isabsuri urijoin self it.2)
                        (site_id schema_id it.1) world)) →
  world_rel same_declaration world
    (foldl (validate_decl isabsuri urijoin GetKeyValues self schema_id value)
           world its).
Proof.
  revert world. induction its as [| [i d] its IH]; intros world Hreg.
  - apply world_rel_refl, same_declaration_refl.
  - rewrite foldl_cons.
    destruct (Hreg (i, d)) as [d0 Hd0]; [left |]. simpl in Hd0.
    apply (world_rel_trans same_declaration world
             (validate_decl isabsuri urijoin GetKeyValues self schema_id
                            value world (i, d)));
      [apply same_declaration_trans | |].
    + rewrite validate_decl_eq. eapply world_set_rel; [exact Hd0 |].
      unfold addressed_FKDef. rewrite Hd0. simpl.
      apply FKDef_with_values_same.
    + apply IH. intros it Hit.
      destruct (Hreg it) as [d1 Hd1]; [by right |].
      destruct (validate_decl_grows self schema_id value world (i, d) _ _ d1 Hd1)
        as (d2 & -> & _). done.
Qed.

(** X14. When every item of the array is already registered under its
    resolved target and its site id, [validate] synthesizes nothing: the
    registry keeps its referenced schemas, its site ids and its
    declarations, and only occurrence sets change. *)
Theorem validate_on_registered_declarations
    (self : AbstractRefKey) (fk_defs : list FKDecl) (value : JSON)
    (schema_id : N) :
  (∀ i d, fk_defs !! i = Some d →
     is_Some (world_get (resolved_target isabsuri urijoin self d)
                        (site_id schema_id i) (FKWorld self))) →
  only_occurrences_change
    (FKWorld self)
    (FKWorld (validate isabsuri urijoin GetKeyValues self fk_defs value
                       schema_id).2).
Proof.
  intros Hreg. rewrite validate_world. apply validate_decls_registered.
  intros [i d] Hin. apply elem_of_enumerate in Hin. by apply Hreg.
Qed.

(** X15. An occurrence gathered by [validate] is there for [forget]: when
    the array has an item, forgetting the current document right after
    gathering removes something and returns [True]. *)
Theorem forget_after_validate
    (self : AbstractRefKey) (fk_defs : list FKDecl) (value : JSON)
    (schema_id : N) :
  fk_defs ≠ [] →
  (forget (validate isabsuri urijoin GetKeyValues self fk_defs value
                    schema_id).2
          (currentJSONFile self)).1
  = true.
Proof.
  intros Hne.
  destruct (forget_world_spec (currentJSONFile self) false
              (FKWorld (validate isabsuri urijoin GetKeyValues self fk_defs
                                 value schema_id).2)) as [_ Hret].
  unfold forget.
  destruct (forget_world _ _ _) as [r w]. simpl in *. apply Hret. right.
  rewrite validate_world.
  destruct fk_defs as [| d0 rest] using rev_ind; [done |]. clear IHrest Hret.
  rewrite enumerate_snoc, foldl_snoc, validate_decl_eq.
  eexists. split.
  - eapply world_get_Some_occurrence.
    + rewrite world_get_set. rewrite decide_True by done. reflexivity.
    + simpl. apply set_add_elem.
  - done.
Qed.

Lemma validate_decl_other_node self schema_id value world it uri g i :
  g ≠ schema_id →
  world_get uri (site_id g i)
    (validate_decl isabsuri urijoin GetKeyValues self schema_id value world it)
  = world_get uri (site_id g i) world.
Proof.
  destruct it as [j d]. intros Hne. rewrite validate_decl_eq, world_get_set.
  rewrite decide_False; [done |].
  intros [_ Hsid]. by apply site_id_inj in Hsid as [? _].
Qed.

(** X16. Gathering under one schema node never touches the declarations of
    another: the entries whose site id is built from a different node
    identity are, occurrences included, what they were before [validate]. *)
Theorem validate_leaves_other_nodes
    (self : AbstractRefKey) (fk_defs : list FKDecl) (value : JSON)
    (schema_id g : N) (uri : string) (i : nat) :
  g ≠ schema_id →
  world_get uri (site_id g i)
    (FKWorld (validate isabsuri urijoin GetKeyValues self fk_defs value
                       schema_id).2)
  = world_get uri (site_id g i) (FKWorld self).
Proof.
  intros Hne. rewrite validate_world.
  generalize (enumerate fk_defs) (FKWorld self). intros its.
  induction its as [| it its IH]; intros world; [done |].
  rewrite foldl_cons, IH. by apply validate_decl_other_node.
Qed.

End GatheringMore.

(** ** bootstrap, beyond the declarations it registers *)

Lemma world_get_foldl_set_other
    (ops : list (string * string * FKDef)) (world : dict (dict FKDef))
    (uri sid : string) :
  (∀ op, op ∈ ops → ¬ (uri = op.1.1 ∧ sid = op.1.2)) →
  world_get uri sid (foldl (λ w op, world_set op.1.1 op.1.2 op.2 w) world ops)
  = world_get uri sid world.
Proof.
  revert world. induction ops as [| op ops IH]; intros world Hother; [done |].
  rewrite foldl_cons, IH.
  - rewrite world_get_set. rewrite decide_False; [done |]. apply Hother. left.
  - intros op' Hin. apply Hother. by right.
Qed.

Lemma bind_nil_iff {A B} (f : A → list B) (l : list A) :
  l ≫= f = [] ↔ ∀ x, x ∈ l → f x = [].
Proof.
  induction l as [| x l IH].
  - split; [by intros _ ? ?%elem_of_nil | done].
  - rewrite bind_cons. split.
    + intros [Hx Hl]%app_eq_nil y [-> | Hy]%elem_of_cons; [done |].
      by apply IH.
    + intros Hall. rewrite (Hall x) by left. apply IH.
      intros y Hy. apply Hall. by right.
Qed.

Section BootstrapMore.
Variable isabsuri : string → bool.
Variable urijoin : string → string → string.
Variable GetKeyValues : JSON → list JSON → list (list JSON).
Context {cls : RefKeyClass}.

Lemma bootstrap_Ok self id2ElemId keyRefs refSchemaCache keyList :
  dict_get triggerAttribute keyRefs = Some keyList →
  bootstrap isabsuri urijoin self (id2ElemId, keyRefs, refSchemaCache)
  = Ok (keyList ≫= (λ loc, enumerate (loc_fk_defs loc)
                      ≫= λ it, bootstrap_errors_of isabsuri urijoin self
                                 refSchemaCache it.2),
        with_FKWorld
          (foldl (λ w op, world_set op.1.1 op.1.2 op.2 w) (FKWorld self)
                 (bootstrap_ops isabsuri urijoin self keyList))
          self).
Proof.
  intros Hkeys. unfold bootstrap. rewrite Hkeys.
  by rewrite bootstrap_locs_eq.
Qed.

Lemma elem_of_bootstrap_ops self keyList op :
  op ∈ bootstrap_ops isabsuri urijoin self keyList
  ↔ ∃ loc i d, loc ∈ keyList ∧ loc_fk_defs loc !! i = Some d
               ∧ op = bootstrap_op isabsuri urijoin self loc (i, d).
Proof.
  unfold bootstrap_ops. rewrite list_elem_of_bind. split.
  - intros (loc & Hop & Hloc).
    apply list_elem_of_fmap in Hop as ([i d] & -> & Hin).
    apply elem_of_enumerate in Hin. by exists loc, i, d.
  - intros (loc & i & d & Hloc & Hd & ->). exists loc. split; [| done].
    apply list_elem_of_fmap. exists (i, d). split; [done |].
    by apply elem_of_enumerate.
Qed.

(** X17. [bootstrap] registers under the site ids of the schema nodes of
    its key list and touches nothing else: an entry whose site id is built
    from the identity of another node is afterwards what it was before,
    occurrences included, and the attributes of the engine other than the
    registry are unchanged. *)
Theorem bootstrap_leaves_other_nodes
    (self : AbstractRefKey) (id2ElemId : dict string)
    (keyRefs : dict (list FeatureLoc)) (refSchemaCache : gset string)
    (keyList : list FeatureLoc) (g : N) :
  dict_get triggerAttribute keyRefs = Some keyList →
  g ∉ (loc_context_id <$> keyList) →
  ∃ errors self',
    bootstrap isabsuri urijoin self (id2ElemId, keyRefs, refSchemaCache)
    = Ok (errors, self')
    ∧ (∀ uri i, world_get uri (site_id g i) (FKWorld self')
                = world_get uri (site_id g i) (FKWorld self))
    ∧ schemaURI self' = schemaURI self
    ∧ jsonSchemaSource self' = jsonSchemaSource self
    ∧ currentJSONFile self' = currentJSONFile self
    ∧ joinClass self' = joinClass self.
Proof.
  intros Hkeys Hg. rewrite (bootstrap_Ok _ _ _ _ _ Hkeys).
  eexists _, _. split; [reflexivity |]. split; [| done].
  intros uri i. simpl. apply world_get_foldl_set_other.
  intros op (loc & j & d & Hloc & _ & ->)%elem_of_bootstrap_ops [_ Hsid].
  simpl in Hsid. apply site_id_inj in Hsid as [-> _].
  apply Hg, list_elem_of_fmap. by exists loc.
Qed.

(** X18. [bootstrap] reports nothing but missing schemas, and reports
    nothing at all exactly when the resolved target of every declaration
    of the key list is in the catalogue. *)
Theorem bootstrap_errors_are_missing_schemas
    (self : AbstractRefKey) (id2ElemId : dict string)
    (keyRefs : dict (list FeatureLoc)) (refSchemaCache : gset string)
    (keyList : list FeatureLoc) :
  dict_get triggerAttribute keyRefs = Some keyList →
  ∃ errors self',
    bootstrap isabsuri urijoin self (id2ElemId, keyRefs, refSchemaCache)
    = Ok (errors, self')
    ∧ Forall (λ e, be_reason e = "fk_no_schema") errors
    ∧ (errors = []
       ↔ ∀ loc d, loc ∈ keyList → d ∈ loc_fk_defs loc →
                  resolved_target isabsuri urijoin self d ∈ refSchemaCache).
Proof.
  intros Hkeys. rewrite (bootstrap_Ok _ _ _ _ _ Hkeys).
  eexists _, _. split; [reflexivity |]. split.
  - apply Forall_bind, Forall_forall. intros loc _.
    apply Forall_bind, Forall_forall. intros [i d] _.
    unfold bootstrap_errors_of. simpl. case_decide; by repeat constructor.
  - rewrite bind_nil_iff. split.
    + intros Hnil loc d Hloc Hd.
      apply list_elem_of_lookup in Hd as [i Hi].
      specialize (Hnil loc Hloc). rewrite bind_nil_iff in Hnil.
      specialize (Hnil (i, d)). unfold bootstrap_errors_of in Hnil.
      simpl in Hnil. destruct (decide _) as [Hin | _]; [done |].
      discriminate Hnil. by apply elem_of_enumerate.
    + intros Hall loc Hloc. apply bind_nil_iff. intros [i d] Hin.
      apply elem_of_enumerate in Hin. unfold bootstrap_errors_of. simpl.
      rewrite decide_True; [done |].
      eapply Hall; [exact Hloc |]. by eapply list_elem_of_lookup_2.
Qed.

(** X19. The site ids of bootstrap and of gathering agree: once a key
    list of distinct schema nodes is bootstrapped, gathering a value under
    one of its nodes, with the identity and the array of that node, finds
    every item registered and synthesizes nothing; only occurrence sets
    change. *)
Theorem validate_after_bootstrap
    (self : AbstractRefKey) (id2ElemId : dict string)
    (keyRefs : dict (list FeatureLoc)) (refSchemaCache : gset string)
    (keyList : list FeatureLoc) (loc : FeatureLoc) (value : JSON) :
  dict_get triggerAttribute keyRefs = Some keyList →
  NoDup (loc_context_id <$> keyList) →
  loc ∈ keyList →
  ∃ errors self',
    bootstrap isabsuri urijoin self (id2ElemId, keyRefs, refSchemaCache)
    = Ok (errors, self')
    ∧ only_occurrences_change
        (FKWorld self')
        (FKWorld (validate isabsuri urijoin GetKeyValues self'
                           (loc_fk_defs loc) value (loc_context_id loc)).2).
Proof.
  intros Hkeys Hnd Hloc. rewrite (bootstrap_Ok _ _ _ _ _ Hkeys).
  eexists _, _. split; [reflexivity |].
  rewrite validate_world. apply validate_decls_registered.
  intros [i d] Hin. apply elem_of_enumerate in Hin. simpl.
  eexists. apply world_get_foldl_set.
  - by apply bootstrap_ops_NoDup.
  - apply elem_of_bootstrap_ops. exists loc, i, d.
    split; [done |]. split; [done |]. reflexivity.
Qed.

End BootstrapMore.

(** ** The further properties on the concrete runs *)

Lemma demo_keyList_NoDup : NoDup (loc_context_id <$> demo_keyList).
Proof.
  apply NoDup_cons. split; [| apply NoDup_singleton].
  by intros ?%list_elem_of_singleton.
Qed.

Lemma demo_booted_no_occurrence fkVals :
  ¬ occurrence_in (FKWorld demo_booted) fkVals.
Proof.
  intros (u & H & sid & d & Hu & Hd & Hv).
  assert ((u, d, fkVals) ∈ all_occurrences (FKWorld demo_booted)) as Hin
    by (apply elem_of_all_occurrences; by exists H, sid).
  assert (all_occurrences (FKWorld demo_booted) = []) as E
    by (vm_compute; reflexivity).
  rewrite E in Hin. by apply elem_of_nil in Hin.
Qed.

(** X3 on the gathered engine with only schema A loaded. *)
Lemma secondPass_errors_are_located_witness :
  let result := (demo_doSecondPass demo_gathered fresh_defaults demo_contexts_A).1 in
  let e :=
    mkSecondPassError "dangling_fk"
      "No available documents from http://x/C schema, required by B"
      "b1.json" "/properties/foreign_keys/2" in
  e ∈ result.2 ∧ file e ∈ result.1.2.
Proof.
  cbv zeta.
  assert (mkSecondPassError "dangling_fk"
            "No available documents from http://x/C schema, required by B"
            "b1.json" "/properties/foreign_keys/2"
          ∈ (demo_doSecondPass demo_gathered fresh_defaults demo_contexts_A).1.2)
    as Hin by (vm_compute; do 2 right; left).
  split; [exact Hin |].
  exact (proj1 (secondPass_errors_are_located (cls := ForeignKey) (list JSON)
                  length demo_iv_mem demo_GenKeyStrings demo_py_str
                  demo_gathered fresh_defaults demo_contexts_A _ Hin)).
Defined.

(** X5 on the engine right after bootstrap. *)
Lemma secondPass_without_occurrences_witness :
  (∀ fkVals, ¬ occurrence_in (FKWorld demo_booted) fkVals)
  ∧ (demo_doSecondPass demo_booted fresh_defaults demo_contexts_A).1
    = (∅, ∅, []).
Proof.
  split; [exact demo_booted_no_occurrence |].
  exact (secondPass_without_occurrences (cls := ForeignKey) (list JSON) length
           demo_iv_mem demo_GenKeyStrings demo_py_str demo_booted
           fresh_defaults demo_contexts_A demo_booted_no_occurrence).
Defined.

(** X9 with the name of A's key already taken by D's key. *)
Lemma filed_names_are_kept_witness :
  let heap := mkPKKeysDefaults (list JSON) [] {["a" := demo_pk_D]} in
  default_by_name (list JSON) heap !! "a" = Some demo_pk_D
  ∧ default_by_name (list JSON)
      (demo_doSecondPass demo_gathered heap demo_contexts_A).2 !! "a"
    = Some demo_pk_D.
Proof.
  cbv zeta. split; [apply lookup_singleton_eq |].
  exact (filed_names_are_kept (cls := ForeignKey) (list JSON) length
           demo_iv_mem demo_GenKeyStrings demo_py_str demo_gathered
           (mkPKKeysDefaults (list JSON) [] {["a" := demo_pk_D]})
           demo_contexts_A "a" demo_pk_D (lookup_singleton_eq _ _)).
Defined.

(** X10 with the contexts of A filed under another class name. *)
Lemma secondPass_without_primary_keys_witness :
  let contexts : dict (list (CheckContext (list JSON))) :=
    [("UniqueKey", [mkCheckContext _ (mkIndexContext _ [("a", demo_pk_A)])])] in
  let result := demo_doSecondPass demo_gathered fresh_defaults contexts in
  Forall (λ item, item.1 ≠ joinClass demo_gathered) contexts
  ∧ result.2 = fresh_defaults
  ∧ result.1.1.2 = result.1.1.1.
Proof.
  cbv zeta.
  assert (Forall (λ item : string * list (CheckContext (list JSON)),
                    item.1 ≠ joinClass demo_gathered)
                 [("UniqueKey",
                   [mkCheckContext _ (mkIndexContext _ [("a", demo_pk_A)])])])
    as Hother by (by repeat constructor).
  split; [exact Hother |].
  destruct (secondPass_without_primary_keys (cls := ForeignKey) (list JSON)
              length demo_iv_mem demo_GenKeyStrings demo_py_str demo_gathered
              fresh_defaults _ Hother) as (Hheap & Hsets & _).
  split; [exact Hheap | exact Hsets].
Defined.

(** X13 on the first declaration of the gathered engine, when document
    [b2.json] goes through the same array. *)
Lemma validate_keeps_registered_witness :
  let self := mkRefKey "B" "b.json" "b2.json" "PrimaryKey" (FKWorld demo_gathered) in
  let fkDef :=
    mkFKDef (mkFKLoc "B" "http://x/A" "/properties/foreign_keys/0"
                     [mkFKVals [[JStr "y"]] "b1.json"])
            (JArr [JStr "ref"]) None in
  world_get "http://x/A" "17_0" (FKWorld self) = Some fkDef
  ∧ ∃ fkDef',
      world_get "http://x/A" "17_0"
        (FKWorld (validate demo_isabsuri demo_urijoin demo_GetKeyValues self
                           demo_fk_decls (JObj [("ref", JStr "x")]) 17).2)
      = Some fkDef'
      ∧ same_declaration fkDef fkDef'
      ∧ FKLoc_values (FKDef_fkLoc fkDef) ⊆ FKLoc_values (FKDef_fkLoc fkDef').
Proof.
  cbv zeta. split; [by vm_compute |].
  exact (validate_keeps_registered demo_isabsuri demo_urijoin demo_GetKeyValues
           (mkRefKey "B" "b.json" "b2.json" "PrimaryKey" (FKWorld demo_gathered))
           demo_fk_decls (JObj [("ref", JStr "x")]) 17
           "http://x/A" "17_0" _ ltac:(vm_compute; reflexivity)).
Defined.

Lemma demo_booted_registered i d :
  demo_fk_decls !! i = Some d →
  is_Some (world_get (resolved_target demo_isabsuri demo_urijoin demo_booted d)
                     (site_id 17 i) (FKWorld demo_booted)).
Proof.
  destruct i as [| [| [| i]]]; intros [= <-]; vm_compute; eauto.
Qed.

(** X14 on the bootstrapped engine and the array of its first node. *)
Lemma validate_on_registered_declarations_witness :
  (∀ i d, demo_fk_decls !! i = Some d →
     is_Some (world_get (resolved_target demo_isabsuri demo_urijoin demo_booted d)
                        (site_id 17 i) (FKWorld demo_booted)))
  ∧ only_occurrences_change
      (FKWorld demo_booted)
      (FKWorld (validate demo_isabsuri demo_urijoin demo_GetKeyValues
                         demo_booted demo_fk_decls
                         (JObj [("ref", JStr "y")]) 17).2).
Proof.
  split; [exact demo_booted_registered |].
  exact (validate_on_registered_declarations demo_isabsuri demo_urijoin
           demo_GetKeyValues demo_booted demo_fk_decls
           (JObj [("ref", JStr "y")]) 17 demo_booted_registered).
Defined.

(** X15 on the engine that bootstrapped nothing. *)
Lemma forget_after_validate_witness :
  demo_fk_decls ≠ []
  ∧ (forget (validate demo_isabsuri demo_urijoin demo_GetKeyValues demo_engine
                      demo_fk_decls (JObj [("ref", JStr "y")]) 17).2
            (currentJSONFile demo_engine)).1
    = true.
Proof.
  assert (demo_fk_decls ≠ []) as Hne by done.
  split; [exact Hne |].
  exact (forget_after_validate demo_isabsuri demo_urijoin demo_GetKeyValues
           demo_engine demo_fk_decls (JObj [("ref", JStr "y")]) 17 Hne).
Defined.

(** X16: gathering under node 17 and the entry of node 23. *)
Lemma validate_leaves_other_nodes_witness :
  (23 ≠ 17)%N
  ∧ world_get "B" (site_id 23 0)
      (FKWorld (validate demo_isabsuri demo_urijoin demo_GetKeyValues
                         demo_booted demo_fk_decls
                         (JObj [("ref", JStr "y")]) 17).2)
    = world_get "B" (site_id 23 0) (FKWorld demo_booted).
Proof.
  assert (23 ≠ 17)%N as Hne by done.
  split; [exact Hne |].
  exact (validate_leaves_other_nodes demo_isabsuri demo_urijoin
           demo_GetKeyValues demo_booted demo_fk_decls
           (JObj [("ref", JStr "y")]) 17 23 "B" 0 Hne).
Defined.

(** X17: bootstrapping the first node only, on the gathered engine, and
    the entry of node 23. *)
Lemma bootstrap_leaves_other_nodes_witness :
  let keyList := [mkFeatureLoc 17 demo_fk_decls "/properties/foreign_keys"] in
  let keyRefs := [("foreign_keys", keyList)] in
  dict_get (triggerAttribute (RefKeyClass := ForeignKey)) keyRefs = Some keyList
  ∧ ((23 : N) ∉ (loc_context_id <$> keyList))
  ∧ ∃ errors self',
      bootstrap demo_isabsuri demo_urijoin (cls := ForeignKey) demo_gathered
                ([], keyRefs, ∅)
      = Ok (errors, self')
      ∧ world_get "B" (site_id 23 0) (FKWorld self')
        = world_get "B" (site_id 23 0) (FKWorld demo_gathered).
Proof.
  cbv zeta.
  assert ((23 : N) ∉ (loc_context_id
                        <$> [mkFeatureLoc 17 demo_fk_decls
                                          "/properties/foreign_keys"]))
    as Hg by (by intros ?%list_elem_of_singleton).
  split; [reflexivity |]. split; [exact Hg |].
  destruct (bootstrap_leaves_other_nodes demo_isabsuri demo_urijoin
              (cls := ForeignKey) demo_gathered []
              [("foreign_keys",
                [mkFeatureLoc 17 demo_fk_decls "/properties/foreign_keys"])]
              ∅ _ 23 eq_refl Hg) as (errors & self' & Hok & Hframe & _).
  exists errors, self'. split; [exact Hok | apply Hframe].
Defined.

(** X18 on the two schema nodes of [demo_keyList]. *)
Lemma bootstrap_errors_are_missing_schemas_witness :
  let keyRefs := [("foreign_keys", demo_keyList)] in
  dict_get (triggerAttribute (RefKeyClass := ForeignKey)) keyRefs
  = Some demo_keyList
  ∧ ∃ errors self',
      bootstrap demo_isabsuri demo_urijoin (cls := ForeignKey) demo_engine
                ([], keyRefs, {["http://x/A"]})
      = Ok (errors, self')
      ∧ Forall (λ e, be_reason e = "fk_no_schema") errors.
Proof.
  cbv zeta. split; [reflexivity |].
  destruct (bootstrap_errors_are_missing_schemas demo_isabsuri demo_urijoin
              (cls := ForeignKey) demo_engine []
              [("foreign_keys", demo_keyList)] {["http://x/A"]} demo_keyList
              eq_refl) as (errors & self' & Hok & Hreason & _).
  exists errors, self'. by split.
Defined.

(** X19 on the two schema nodes of [demo_keyList] and the first of them. *)
Lemma validate_after_bootstrap_witness :
  let keyRefs := [("foreign_keys", demo_keyList)] in
  let loc := mkFeatureLoc 17 demo_fk_decls "/properties/foreign_keys" in
  dict_get (triggerAttribute (RefKeyClass := ForeignKey)) keyRefs
  = Some demo_keyList
  ∧ NoDup (loc_context_id <$> demo_keyList)
  ∧ loc ∈ demo_keyList
  ∧ ∃ errors self',
      bootstrap demo_isabsuri demo_urijoin (cls := ForeignKey) demo_engine
                ([], keyRefs, {["http://x/A"]})
      = Ok (errors, self')
      ∧ only_occurrences_change
          (FKWorld self')
          (FKWorld (validate demo_isabsuri demo_urijoin demo_GetKeyValues self'
                             (loc_fk_defs loc) (JObj [("ref", JStr "y")])
                             (loc_context_id loc)).2).
Proof.
  cbv zeta.
  assert (mkFeatureLoc 17 demo_fk_decls "/properties/foreign_keys"
          ∈ demo_keyList) as Hloc by left.
  split; [reflexivity |]. split; [exact demo_keyList_NoDup |].
  split; [exact Hloc |].
  exact (validate_after_bootstrap demo_isabsuri demo_urijoin demo_GetKeyValues
           (cls := ForeignKey) demo_engine [] [("foreign_keys", demo_keyList)]
           {["http://x/A"]} demo_keyList _ (JObj [("ref", JStr "y")])
           eq_refl demo_keyList_NoDup Hloc).
Defined.
